(** * Bacalhau: requester scheduler, job factory, docker cache defaults

    A shallow embedding of the reconciliation pass of the requester
    scheduler ([pkg/requester/scheduler_state.go]), of the annotation
    filter of the job factory ([pkg/job/factory.go]), of the package
    initialiser of the docker caches ([pkg/docker/cache.go]) and of the
    checks made by the public-API and transport test suites, together
    with the properties the specification states about them.

    Go state is threaded explicitly: a [World] holds the job store, the
    events published on the transport and the log of the calls the
    scheduler makes to its own stop routine.  The scheduler's pluggable
    collaborators (node selector, retry strategy, verifier) are Go
    interfaces and are records of functions here.  The log lines of the
    scheduler change none of this state and are left out; those of the
    job factory are kept. *)

From Stdlib Require Import ZArith List Bool String Ascii Lia DecimalString.
From stdpp Require Import base option gmap strings list sorting.
Import ListNotations.
Open Scope Z_scope.

(** ** Data model ([pkg/model]) *)

(** Modelled from the spec: the [JobStateType] enumeration of
    [pkg/model] is not under src/; section 3 lists its six values. *)
Inductive JobStateType : Type :=
  | JobStateNew
  | JobStateInProgress
  | JobStateCompletedSuccessfully
  | JobStateCompletedPartially
  | JobStateFailed
  | JobStateCancelled.

(** Modelled from the spec: [JobStateType.IsTerminal] is not under
    src/; section 3 reads "terminal: last four". *)
Definition IsTerminal (s : JobStateType) : bool :=
  match s with
  | JobStateNew | JobStateInProgress => false
  | JobStateCompletedSuccessfully | JobStateCompletedPartially
  | JobStateFailed | JobStateCancelled => true
  end.

(** Modelled from the spec: the [ExecutionStateType] enumeration of
    [pkg/model] is not under src/; section 3 lists its ten values. *)
Inductive ExecutionStateType : Type :=
  | ExecutionStateAskedToBid
  | ExecutionStateBidReceived
  | ExecutionStateBidAccepted
  | ExecutionStateBidRejected
  | ExecutionStateResultProposed
  | ExecutionStateResultAccepted
  | ExecutionStateResultRejected
  | ExecutionStateCompleted
  | ExecutionStateFailed
  | ExecutionStateCancelled.

#[global] Instance JobStateType_eq_dec : EqDecision JobStateType.
Proof. solve_decision. Defined.

#[global] Instance ExecutionStateType_eq_dec : EqDecision ExecutionStateType.
Proof. solve_decision. Defined.

(** Modelled from the spec: an execution that can make no further
    progress; the spec names a rejected bid "terminal for that attempt"
    and the remaining end points of the lifecycle of section 4.6. *)
Definition ExecutionIsTerminal (s : ExecutionStateType) : bool :=
  match s with
  | ExecutionStateBidRejected | ExecutionStateResultRejected
  | ExecutionStateCompleted | ExecutionStateFailed
  | ExecutionStateCancelled => true
  | _ => false
  end.

(** [model.ExecutionState]: one attempt on one compute node.  The
    fields are those of section 3; [UpdateTime] is a [time.Time],
    counted here in nanoseconds from Go's zero time. *)
Record ExecutionState : Type := mkExecution {
  E_JobID : string;
  E_NodeID : string;
  E_State : ExecutionStateType;
  E_Status : string;
  E_UpdateTime : Z;
  E_ResultProposal : option string;
  E_PublishedResult : option string
}.

(** The zero value of [model.ExecutionState] ([var e model.ExecutionState]). *)
Definition zeroExecution : ExecutionState :=
  mkExecution "" "" ExecutionStateAskedToBid "" 0 None None.

(** [model.JobState]: the mutable container of a job. *)
Record JobState : Type := mkJobState {
  JS_JobID : string;
  JS_Executions : list ExecutionState;
  JS_State : JobStateType;
  JS_Status : string
}.

(** [model.Deal]. *)
Record Deal : Type := mkDeal {
  Concurrency : Z;
  Confidence : Z;
  MinBids : Z
}.

(** [model.Job], reduced to what the scheduler reads. *)
Record Job : Type := mkJob {
  Job_ID : string;
  Job_Deal : Deal
}.

(** [job.ID()]. *)
Definition ID (j : Job) : string := Job_ID j.

(** [model.NodeInfo] is identified with the peer identifier. *)
Definition NodeInfo : Type := string.

(** Error kinds of section 7. A Go [error] is a kind and a message. *)
Inductive ErrorKind : Type :=
  | InvalidJob
  | ConcurrentUpdate
  | InsufficientExecutions
  | ExecutionFailed
  | VerifierError
  | TransportUnavailable
  | JobTerminated
  | NotFound
  | SelectorError.

Record error : Type := mkError {
  err_kind : ErrorKind;
  err_msg : string
}.

(** [err != nil]. *)
Definition notNil (err : option error) : bool :=
  match err with
  | Some _ => true
  | None => false
  end.

(** [errors.As(err, new(verifier.ErrInsufficientExecutions))]. *)
Definition IsErrInsufficientExecutions (e : error) : bool :=
  match err_kind e with
  | InsufficientExecutions => true
  | _ => false
  end.

(** [jobState.GroupExecutionsByState()[st]]: the executions of the
    snapshot that are in state [st], in order. *)
Definition GroupExecutionsByState (js : JobState) (st : ExecutionStateType)
  : list ExecutionState :=
  filter (fun e => E_State e = st) (JS_Executions js).

(** ** The world the scheduler acts on *)

(** Event names of the wire format (section 6). *)
Inductive EventName : Type :=
  | EvCreated
  | EvAskForBid
  | EvBidReceived
  | EvBidCancelled
  | EvBidAccepted
  | EvBidRejected
  | EvComputeError
  | EvResultProposed
  | EvResultAccepted
  | EvResultRejected
  | EvPublished
  | EvCancelExecution
  | EvCancelled.

Record Event : Type := mkEvent {
  Ev_Name : EventName;
  Ev_JobID : string;
  Ev_SourceNodeID : string;
  Ev_TargetNodeID : string;
  Ev_Timestamp : Z;
  Ev_Payload : string
}.

(** A call of the scheduler's stop routine, with its three arguments. *)
Record StopJobCall : Type := mkStopJobCall {
  stop_jobID : string;
  stop_reason : string;
  stop_permanent : bool
}.

Record World : Type := mkWorld {
  jobs : gmap string Job;
  states : gmap string JobState;
  outbox : list Event;
  stopCalls : list StopJobCall
}.

(** The persisted part of a world: what the job store holds. *)
Definition store (w : World) : gmap string Job * gmap string JobState :=
  (jobs w, states w).

(** ** Job store ([pkg/jobstore]) *)

(** Modelled from the spec: the job store is not under src/; section
    4.2 gives [GetJob] and [GetJobState] as read-only snapshots that
    fail with [NotFound]. *)
Definition GetJobState (w : World) (jobID : string) : error + JobState :=
  match states w !! jobID with
  | Some js => inr js
  | None => inl (mkError NotFound "job state not found")
  end.

Definition GetJob (w : World) (jobID : string) : error + Job :=
  match jobs w !! jobID with
  | Some j => inr j
  | None => inl (mkError NotFound "job not found")
  end.

(** [jobstore.UpdateJobStateRequest], with the two fields the
    scheduler sets. *)
Record UpdateJobStateRequest : Type := mkUpdateJobStateRequest {
  Req_JobID : string;
  Req_NewState : JobStateType
}.

(** Modelled from the spec: [UpdateJobState] is not under src/; by
    section 4.2 it fails with [NotFound] on an unknown job and updates
    to a terminal job state are rejected with [JobTerminated]. *)
Definition UpdateJobState (w : World) (r : UpdateJobStateRequest)
  : option error * World :=
  match states w !! Req_JobID r with
  | None => (Some (mkError NotFound "job state not found"), w)
  | Some js =>
      if IsTerminal (JS_State js)
      then (Some (mkError JobTerminated "job is terminal"), w)
      else
        let js' := mkJobState (JS_JobID js) (JS_Executions js)
                              (Req_NewState r) (JS_Status js) in
        (None, mkWorld (jobs w) (<[Req_JobID r := js']> (states w))
                       (outbox w) (stopCalls w))
  end.

(** Rewrites the executions of a job in the store; a terminal or
    unknown job is left as it is (section 4.2: such updates are
    rejected). *)
Definition updateExecutions (jobID : string)
    (f : list ExecutionState -> list ExecutionState) (w : World) : World :=
  match states w !! jobID with
  | None => w
  | Some js =>
      if IsTerminal (JS_State js) then w
      else
        let js' := mkJobState (JS_JobID js) (f (JS_Executions js))
                              (JS_State js) (JS_Status js) in
        mkWorld (jobs w) (<[jobID := js']> (states w))
                (outbox w) (stopCalls w)
  end.

Definition setExecution (st : ExecutionStateType) (status : string)
    (e : ExecutionState) : ExecutionState :=
  mkExecution (E_JobID e) (E_NodeID e) st status (E_UpdateTime e)
              (E_ResultProposal e) (E_PublishedResult e).

(** Modelled from the spec: the order of section 4.6 along which an
    execution advances (asked, bid, accepted, proposed, verified,
    published); rejection, failure and cancellation end an attempt. *)
Definition executionRank (s : ExecutionStateType) : Z :=
  match s with
  | ExecutionStateAskedToBid => 0
  | ExecutionStateBidReceived => 1
  | ExecutionStateBidAccepted => 2
  | ExecutionStateResultProposed => 3
  | ExecutionStateResultAccepted => 4
  | _ => 5
  end.

Definition canAdvance (from to : ExecutionStateType) : bool :=
  negb (ExecutionIsTerminal from) && (executionRank from <? executionRank to).

(** Modelled from the spec: [UpdateExecution] of section 4.2, keyed by
    the node of the execution; an execution cannot move backwards in
    the order of section 4.6.  [f] writes the new record. *)
Definition UpdateExecutionWith (jobID nodeID : string)
    (st : ExecutionStateType) (f : ExecutionState -> ExecutionState)
    (w : World) : World :=
  updateExecutions jobID
    (map (fun e =>
            if String.eqb (E_NodeID e) nodeID && canAdvance (E_State e) st
            then f e else e)) w.

Definition UpdateExecution (jobID nodeID : string)
    (st : ExecutionStateType) (status : string) (w : World) : World :=
  UpdateExecutionWith jobID nodeID st (setExecution st status) w.

(** Modelled from the spec: [CreateExecution] of section 4.2. *)
Definition CreateExecution (jobID : string) (e : ExecutionState)
    (w : World) : World :=
  updateExecutions jobID (fun es => es ++ [e]) w.

Definition publish (e : Event) (w : World) : World :=
  mkWorld (jobs w) (states w) (outbox w ++ [e]) (stopCalls w).

(** ** Scheduler collaborators ([pkg/requester]) *)

(** The three interfaces the scheduler is polymorphic over.  Their
    implementations are not under src/; the scheduler code below is
    stated for every implementation. *)
Record NodeSelector : Type := mkNodeSelector {
  SelectNodesForRetry : Job -> JobState -> list NodeInfo * option error;
  SelectBids : Job -> JobState -> list ExecutionState * list ExecutionState;
  CanCompleteJob : Job -> JobState -> bool * JobStateType
}.

Record RetryRequest : Type := mkRetryRequest { RR_JobID : string }.

Record RetryStrategy : Type := mkRetryStrategy {
  ShouldRetry : RetryRequest -> bool
}.

Record Verifier : Type := mkVerifier {
  Verify : Job -> list ExecutionState ->
           list ExecutionState * list ExecutionState * option error
}.

Record BaseScheduler : Type := mkBaseScheduler {
  nodeSelector : NodeSelector;
  retryStrategy : RetryStrategy;
  verifier : Verifier
}.

(** ** Scheduler helpers that are not under src/ *)

(** Modelled from the spec: [stopJob] is not under src/; section 4.6:
    "updates JobState to Failed, sets Status = message; publishes
    CancelExecution to every non-terminal execution node".  The call
    and its arguments are recorded in [stopCalls]. *)
Definition stopJob (jobID reason : string) (permanent : bool) (w : World)
  : World :=
  let calls := stopCalls w ++ [mkStopJobCall jobID reason permanent] in
  match states w !! jobID with
  | None => mkWorld (jobs w) (states w) (outbox w) calls
  | Some js =>
      if IsTerminal (JS_State js)
      then mkWorld (jobs w) (states w) (outbox w) calls
      else
        let js' := mkJobState (JS_JobID js) (JS_Executions js)
                              JobStateFailed reason in
        let cancels :=
          map (fun e => mkEvent EvCancelExecution jobID "" (E_NodeID e) 0 reason)
              (filter (fun e => ExecutionIsTerminal (E_State e) = false)
                      (JS_Executions js)) in
        mkWorld (jobs w) (<[jobID := js']> (states w))
                (outbox w ++ cancels) calls
  end.

(** Modelled from the spec: [notifyAskForBid] is not under src/;
    section 4.6 step 2: "emit AskForBid to those nodes; create new
    Execution rows in AskedToBid". *)
Definition notifyAskForBid (job : Job) (nodes : list NodeInfo) (w : World)
  : World :=
  fold_left
    (fun w n =>
       publish (mkEvent EvAskForBid (ID job) "" n 0 "")
         (CreateExecution (ID job)
            (mkExecution (ID job) n ExecutionStateAskedToBid "" 0 None None) w))
    nodes w.

(** Modelled from the spec: [updateAndNotifyBidAccepted] and
    [updateAndNotifyBidRejected] are not under src/; section 4.6 step
    3: "update execution to BidAccepted and publish BidAccepted". *)
Definition updateAndNotifyBidAccepted (bid : ExecutionState) (w : World)
  : World :=
  publish (mkEvent EvBidAccepted (E_JobID bid) "" (E_NodeID bid) 0 "")
    (UpdateExecution (E_JobID bid) (E_NodeID bid)
                     ExecutionStateBidAccepted "" w).

Definition updateAndNotifyBidRejected (bid : ExecutionState) (w : World)
  : World :=
  publish (mkEvent EvBidRejected (E_JobID bid) "" (E_NodeID bid) 0 "")
    (UpdateExecution (E_JobID bid) (E_NodeID bid)
                     ExecutionStateBidRejected "" w).

Definition updateAndNotifyResultAccepted (r : ExecutionState) (w : World)
  : World :=
  publish (mkEvent EvResultAccepted (E_JobID r) "" (E_NodeID r) 0 "")
    (UpdateExecution (E_JobID r) (E_NodeID r)
                     ExecutionStateResultAccepted "" w).

Definition updateAndNotifyResultRejected (r : ExecutionState) (w : World)
  : World :=
  publish (mkEvent EvResultRejected (E_JobID r) "" (E_NodeID r) 0 "")
    (UpdateExecution (E_JobID r) (E_NodeID r)
                     ExecutionStateResultRejected "" w).

(** Modelled from the spec: [verifyResult] is not under src/; section
    4.6 step 4: the verifier is called; when it reports an error
    nothing else is done; "on success, mark succeeded executions
    ResultAccepted (publish ResultAccepted) and failed ones
    ResultRejected (publish ResultRejected)". *)
Definition verifyResult (s : BaseScheduler) (job : Job)
    (executions : list ExecutionState) (w : World)
  : list ExecutionState * list ExecutionState * option error * World :=
  match Verify (verifier s) job executions with
  | (succeeded, failed, Some err) => ([], [], Some err, w)
  | (succeeded, failed, None) =>
      let w1 := fold_left (fun w r => updateAndNotifyResultAccepted r w)
                          succeeded w in
      let w2 := fold_left (fun w r => updateAndNotifyResultRejected r w)
                          failed w1 in
      (succeeded, failed, None, w2)
  end.

(** ** The reconciliation pass ([scheduler_state.go]) *)

(** [multierr.Append] keeps the flat list of the errors appended so
    far; [Error()] of one error is its message and of several is the
    messages joined by "; ". *)
Definition multierr_Error (errs : list string) : string :=
  String.concat "; " errs.

(** One iteration of the loop of [checkForFailedExecutions] over
    [jobState.Executions]; the loop state is [lastFailedExecution],
    [finalErr] and [errMsg]. *)
Definition failedLoopStep
    (st : ExecutionState * list string * string) (execution : ExecutionState)
  : ExecutionState * list string * string :=
  let '(lastFailedExecution, finalErr, errMsg) := st in
  if bool_decide (E_State execution = ExecutionStateFailed)
     && (E_UpdateTime lastFailedExecution <? E_UpdateTime execution)
  then
    let lastFailedExecution := execution in
    let finalErr :=
      finalErr ++ ["node " +:+ E_NodeID lastFailedExecution
                   +:+ " failed due to: " +:+ E_Status lastFailedExecution] in
    (lastFailedExecution, finalErr, multierr_Error finalErr)
  else st.

(** The message [checkForFailedExecutions] passes to [stopJob]. *)
Definition failedErrMsg (jobState : JobState) : string :=
  snd (fold_left failedLoopStep (JS_Executions jobState)
                 (zeroExecution, [], ""%string)).

Definition checkForFailedExecutions (s : BaseScheduler) (job : Job)
    (jobState : JobState) (w : World) : World :=
  let '(nodesToRetry, err) :=
    SelectNodesForRetry (nodeSelector s) job jobState in
  let canRetry := ShouldRetry (retryStrategy s) (mkRetryRequest (ID job)) in
  if notNil err || ((0 <? Z.of_nat (length nodesToRetry)) && negb canRetry)
  then stopJob (ID job) (failedErrMsg jobState) false w
  else if 0 <? Z.of_nat (length nodesToRetry)
       then notifyAskForBid job nodesToRetry w
       else w.

Definition checkForPendingBids (s : BaseScheduler) (job : Job)
    (jobState : JobState) (w : World) : World :=
  let '(acceptBids, rejectBids) := SelectBids (nodeSelector s) job jobState in
  let w := fold_left (fun w bid => updateAndNotifyBidAccepted bid w)
                     acceptBids w in
  fold_left (fun w bid => updateAndNotifyBidRejected bid w) rejectBids w.

(** [fmt.Sprintf("failed to verify job %s: %s", job.ID(), err)]. *)
Definition verifyErrMsg (job : Job) (err : error) : string :=
  "failed to verify job " +:+ ID job +:+ ": " +:+ err_msg err.

(** [checkForPendingResults] re-enters [transitionJobStateLockFree];
    the re-entrant call is the argument [transition].  [None] is a pass
    that has not returned within the fuel given to it. *)
Definition checkForPendingResults (s : BaseScheduler)
    (transition : string -> World -> option World)
    (job : Job) (jobState : JobState) (w : World) : option World :=
  let proposed := GroupExecutionsByState jobState ExecutionStateResultProposed in
  let awaitingVerification := Z.of_nat (length proposed) in
  if 1 <=? awaitingVerification then
    let '(succeeded, failed, err, w) := verifyResult s job proposed w in
    match err with
    | Some e =>
        if IsErrInsufficientExecutions e then Some w
        else Some (stopJob (ID job) (verifyErrMsg job e) false w)
    | None =>
        if 0 <? Z.of_nat (length failed)
        then transition (ID job) w
        else Some w
    end
  else Some w.

Definition checkForCompletedExecutions (s : BaseScheduler) (job : Job)
    (jobState : JobState) (w : World) : World :=
  let '(shouldUpdate, newState) :=
    CanCompleteJob (nodeSelector s) job jobState in
  if shouldUpdate
  then snd (UpdateJobState w (mkUpdateJobStateRequest (ID job) newState))
  else w.

Fixpoint transitionJobStateLockFree (fuel : nat) (s : BaseScheduler)
    (jobID : string) (w : World) : option World :=
  match fuel with
  | O => None
  | S fuel =>
      match GetJobState w jobID with
      | inl _ => Some w
      | inr jobState =>
          if IsTerminal (JS_State jobState) then Some w
          else
            match GetJob w jobID with
            | inl _ => Some w
            | inr job =>
                let w := checkForFailedExecutions s job jobState w in
                let w := checkForPendingBids s job jobState w in
                match checkForPendingResults s
                        (transitionJobStateLockFree fuel s) job jobState w with
                | None => None
                | Some w => Some (checkForCompletedExecutions s job jobState w)
                end
            end
      end
  end.

(** [TransitionJobState] takes the scheduler mutex around the pass; in
    this sequential model it is the pass itself. *)
Definition TransitionJobState (fuel : nat) (s : BaseScheduler)
    (jobID : string) (w : World) : option World :=
  transitionJobStateLockFree fuel s jobID w.

(** ** Inbound events *)

(** The record an inbound event leaves in the execution it targets:
    the new state, the status, the time of the event (never earlier
    than the recorded one) and the attached payloads. *)
Definition eventExecution (st : ExecutionStateType) (status : string)
    (proposal published : option string) (ev : Event) (e : ExecutionState)
  : ExecutionState :=
  mkExecution (E_JobID e) (E_NodeID e) st status
    (Z.max (E_UpdateTime e) (Ev_Timestamp ev))
    (match proposal with Some p => Some p | None => E_ResultProposal e end)
    (match published with Some p => Some p | None => E_PublishedResult e end).

(** Modelled from the spec: the event handlers are not under src/;
    this is the "event to local effect" table of section 4.6.  A
    cancellation that the store rejects is dropped (section 7,
    [JobTerminated]: "silently dropped by scheduler"). *)
Definition applyEvent (ev : Event) (w : World) : World :=
  let jobID := Ev_JobID ev in
  let node := Ev_SourceNodeID ev in
  match Ev_Name ev with
  | EvBidReceived =>
      UpdateExecutionWith jobID node ExecutionStateBidReceived
        (eventExecution ExecutionStateBidReceived "" None None ev) w
  | EvBidCancelled =>
      UpdateExecutionWith jobID node ExecutionStateFailed
        (eventExecution ExecutionStateFailed "bid withdrawn" None None ev) w
  | EvComputeError =>
      UpdateExecutionWith jobID node ExecutionStateFailed
        (eventExecution ExecutionStateFailed (Ev_Payload ev) None None ev) w
  | EvResultProposed =>
      UpdateExecutionWith jobID node ExecutionStateResultProposed
        (eventExecution ExecutionStateResultProposed ""
                        (Some (Ev_Payload ev)) None ev) w
  | EvPublished =>
      UpdateExecutionWith jobID node ExecutionStateCompleted
        (eventExecution ExecutionStateCompleted ""
                        None (Some (Ev_Payload ev)) ev) w
  | EvCancelled =>
      match states w !! jobID with
      | None => w
      | Some js =>
          match UpdateJobState w (mkUpdateJobStateRequest jobID JobStateCancelled) with
          | (Some _, w') => w'
          | (None, w') =>
              fold_left
                (fun w e =>
                   publish (mkEvent EvCancelExecution jobID "" (E_NodeID e)
                                    (Ev_Timestamp ev) (Ev_Payload ev)) w)
                (filter (fun e => ExecutionIsTerminal (E_State e) = false)
                        (JS_Executions js)) w'
          end
      end
  | _ => w
  end.

(** Modelled from the spec: [OnEvent] is not under src/; section 4.6:
    it "applies a local effect, then calls TransitionJobState(jobID)". *)
Definition OnEvent (fuel : nat) (s : BaseScheduler) (ev : Event) (w : World)
  : option World :=
  TransitionJobState fuel s (Ev_JobID ev) (applyEvent ev w).

(** A step of the life of the scheduler: a reconciliation pass on a
    job (timer sweep) or an inbound event. *)
Inductive Step : Type :=
  | StepTransition (jobID : string)
  | StepEvent (ev : Event).

(** Steps that target one job only. *)
Definition stepTargets (jobID : string) (st : Step) : Prop :=
  match st with
  | StepTransition id => id = jobID
  | StepEvent ev => Ev_JobID ev = jobID
  end.

Definition runStep (fuel : nat) (s : BaseScheduler) (st : Step) (w : World)
  : option World :=
  match st with
  | StepTransition jobID => TransitionJobState fuel s jobID w
  | StepEvent ev => OnEvent fuel s ev w
  end.

Fixpoint runSteps (fuel : nat) (s : BaseScheduler) (sts : list Step)
    (w : World) : option World :=
  match sts with
  | [] => Some w
  | st :: sts =>
      match runStep fuel s st w with
      | None => None
      | Some w => runSteps fuel s sts w
      end
  end.

(** A snapshot on which a pass finds nothing to do: no retry is
    proposed, no bid is to be decided, no execution awaits
    verification and the job cannot be completed. *)
Definition quiescent (s : BaseScheduler) (job : Job) (jobState : JobState)
  : Prop :=
  SelectNodesForRetry (nodeSelector s) job jobState = ([], None)
  /\ SelectBids (nodeSelector s) job jobState = ([], [])
  /\ GroupExecutionsByState jobState ExecutionStateResultProposed = []
  /\ fst (CanCompleteJob (nodeSelector s) job jobState) = false.

(** ** Collaborators as the specification describes them *)

Section SpecCollaborators.

(** The discovered nodes, in the selector's order of preference, and
    the attempt budget of the selector. *)
Variable roster : list NodeInfo.
Variable attemptBudget : nat.

Definition countState (st : ExecutionStateType) (js : JobState) : Z :=
  Z.of_nat (length (GroupExecutionsByState js st)).

(** Modelled from the spec: section 4.3, "for each execution in
    Failed, propose an alternate node not previously tried; return
    empty if the configured attempt budget is exhausted". *)
Definition specSelectNodesForRetry (job : Job) (js : JobState)
  : list NodeInfo * option error :=
  let tried := map E_NodeID (JS_Executions js) in
  let failed := GroupExecutionsByState js ExecutionStateFailed in
  if (attemptBudget <=? length (JS_Executions js))%nat then ([], None)
  else
    (take (length failed)
          (filter (fun n => n ∉ tried) roster), None).

(** Modelled from the spec: section 4.3, "when the number of
    BidReceived executions >= Deal.MinBids, accept the best
    Deal.Concurrency by the node-selector ordering and reject the
    rest; while under MinBids, return empty". *)
Definition specSelectBids (job : Job) (js : JobState)
  : list ExecutionState * list ExecutionState :=
  let bids := GroupExecutionsByState js ExecutionStateBidReceived in
  if MinBids (Job_Deal job) <=? Z.of_nat (length bids)
  then (take (Z.to_nat (Concurrency (Job_Deal job))) bids,
        drop (Z.to_nat (Concurrency (Job_Deal job))) bids)
  else ([], []).

(** Modelled from the spec: section 4.3, [CanCompleteJob]. *)
Definition specCanCompleteJob (job : Job) (js : JobState)
  : bool * JobStateType :=
  let completed := countState ExecutionStateCompleted js in
  if Concurrency (Job_Deal job) <=? completed
  then (true, JobStateCompletedSuccessfully)
  else if (Confidence (Job_Deal job) <=? completed)
          && forallb (fun e => ExecutionIsTerminal (E_State e))
                     (JS_Executions js)
       then (true, JobStateCompletedPartially)
       else (false, JS_State js).

Definition specNodeSelector : NodeSelector :=
  mkNodeSelector specSelectNodesForRetry specSelectBids specCanCompleteJob.

End SpecCollaborators.

(** Modelled from the spec: section 4.4, the trusted (noop) verifier:
    "every proposal succeeds immediately once present". *)
Definition noopVerifier : Verifier :=
  mkVerifier (fun _ proposals => (proposals, [], None)).

(** Modelled from the spec: section 4.4, the deterministic verifier. *)
Definition sameResult (a b : ExecutionState) : bool :=
  bool_decide (E_ResultProposal a = E_ResultProposal b).

Definition deterministicVerify (job : Job) (proposals : list ExecutionState)
  : list ExecutionState * list ExecutionState * option error :=
  let agreeing p := filter (fun q => sameResult p q = true) proposals in
  match filter (fun p => Confidence (Job_Deal job)
                         <= Z.of_nat (length (agreeing p))) proposals with
  | p :: _ =>
      (agreeing p, filter (fun q => sameResult p q = false) proposals, None)
  | [] =>
      if Z.of_nat (length proposals) <? Concurrency (Job_Deal job)
      then ([], [], Some (mkError InsufficientExecutions
                                  "insufficient executions"))
      else ([], proposals, None)
  end.

Definition deterministicVerifier : Verifier := mkVerifier deterministicVerify.

(** A verifier that cannot adjudicate: a hard failure. *)
Definition brokenVerifier : Verifier :=
  mkVerifier (fun _ _ => ([], [], Some (mkError VerifierError
                                                "verifier unavailable"))).

Definition fixedRetryStrategy (allow : bool) : RetryStrategy :=
  mkRetryStrategy (fun _ => allow).

(** ** Job factory ([pkg/job/factory.go]) *)

Inductive LogLevel : Type := LevelDebug | LevelInfo | LevelWarn | LevelError.

Record LogEntry : Type := mkLogEntry {
  log_level : LogLevel;
  log_msg : string
}.

Section Factory.

(** Types of [pkg/model] that the factory only passes through. *)
Variables APIVersion VerifierKind PublisherSpec Network StorageSpec
          EngineSpec NodeSelectorRequirement float64 : Type.

(** Helpers of the repository that are not under src/ and that the
    factory calls; each is taken as it is declared. *)
Variable IsSafeAnnotation : string -> bool.
Variable RegexString : string.
Variable BuildJobOutputs : list string -> error + list StorageSpec.
Variable ParseNodeSelector :
  string -> error + list NodeSelectorRequirement.
Variable ValidateWorkingDir : string -> option error.
Variable APIVersion_String : APIVersion -> string.

Record ResourceUsageConfig : Type := mkResourceUsageConfig {
  CPU : string;
  Memory : string;
  GPU : string
}.

Record NetworkConfig : Type := mkNetworkConfig {
  Net_Type : Network;
  Net_Domains : list string
}.

Record DockerEngineSpec : Type := mkDockerEngineSpec {
  Image : string;
  Entrypoint : list string;
  EnvironmentVariables : list string;
  WorkingDirectory : string
}.

Variable AsSpec : DockerEngineSpec -> error + EngineSpec.

Record Spec : Type := mkSpec {
  Spec_Engine : EngineSpec;
  Spec_Verifier : VerifierKind;
  Spec_PublisherSpec : PublisherSpec;
  Spec_Network : NetworkConfig;
  Spec_Timeout : float64;
  Spec_Resources : ResourceUsageConfig;
  Spec_Inputs : list StorageSpec;
  Spec_Outputs : list StorageSpec;
  Spec_Annotations : list string;
  Spec_NodeSelectors : list NodeSelectorRequirement;
  Spec_Deal : Deal
}.

(** The job under construction: [model.Job] with the two fields the
    factory writes; [JobSpec] is [None] until the factory sets it. *)
Record DockerJob : Type := mkDockerJob {
  DJ_APIVersion : string;
  DJ_Spec : option Spec
}.

Variable NewJobWithSaneProductionDefaults : error + DockerJob.

(** [&model.Job{}]. *)
Definition emptyJob : DockerJob := mkDockerJob "" None.

(** The loop over [annotations]: the pair of [jobAnnotations] and
    [unSafeAnnotations] after it. *)
Definition splitAnnotations (annotations : list string)
  : list string * list string :=
  fold_left
    (fun '(jobAnnotations, unSafeAnnotations) a =>
       if IsSafeAnnotation a && negb (String.eqb a "")
       then (jobAnnotations ++ [a], unSafeAnnotations)
       else (jobAnnotations, unSafeAnnotations ++ [a]))
    annotations ([], []).

(** The message logged when some annotation was set aside. *)
Definition unsafeLabelsMsg (unSafeAnnotations : list string) : string :=
  "The following labels are unsafe. Labels must fit the regex '/"
  +:+ RegexString +:+ "/' (and all emjois): "
  +:+ String.concat ", " unSafeAnnotations.

(** [ConstructDockerJob]: the returned pointer ([None] is [nil]), the
    returned error and the log lines written. *)
Definition ConstructDockerJob
    (a : APIVersion) (v : VerifierKind) (p : PublisherSpec)
    (cpu memory gpu : string) (network : Network) (domains : list string)
    (inputs : list StorageSpec) (outputVolumes : list string)
    (env : list string) (entrypoint : list string) (image : string)
    (concurrency confidence minBids : Z) (timeout : float64)
    (annotations : list string) (nodeSelector : string)
    (workingDir : string)
  : option DockerJob * option error * list LogEntry :=
  let jobResources := mkResourceUsageConfig cpu memory gpu in
  match BuildJobOutputs outputVolumes with
  | inl err => (Some emptyJob, Some err, [])
  | inr jobOutputs =>
      let '(jobAnnotations, unSafeAnnotations) :=
        splitAnnotations annotations in
      let logs :=
        if (0 <? length unSafeAnnotations)%nat
        then [mkLogEntry LevelError (unsafeLabelsMsg unSafeAnnotations)]
        else [] in
      match ParseNodeSelector nodeSelector with
      | inl err => (Some emptyJob, Some err, logs)
      | inr nodeSelectorRequirements =>
          match (if (0 <? String.length workingDir)%nat
                 then ValidateWorkingDir workingDir else None) with
          | Some err => (Some emptyJob, Some err, logs)
          | None =>
              match NewJobWithSaneProductionDefaults with
              | inl err => (Some emptyJob, Some err, logs)
              | inr j =>
                  let dockerEngine :=
                    mkDockerEngineSpec image entrypoint env
                      (if (0 <? String.length workingDir)%nat
                       then workingDir else ""%string) in
                  match AsSpec dockerEngine with
                  | inl err => (None, Some err, logs)
                  | inr engine =>
                      let spec :=
                        mkSpec engine v p (mkNetworkConfig network domains)
                               timeout jobResources inputs jobOutputs
                               jobAnnotations nodeSelectorRequirements
                               (mkDeal concurrency confidence minBids) in
                      (Some (mkDockerJob (APIVersion_String a) (Some spec)),
                       None, logs)
                  end
              end
          end
      end
  end.

(** The annotations of the job a call constructed, when it
    constructed one. *)
Definition constructedAnnotations
    (r : option DockerJob * option error * list LogEntry)
  : option (list string) :=
  match r with
  | (Some j, None, _) =>
      match DJ_Spec j with
      | Some spec => Some (Spec_Annotations spec)
      | None => None
      end
  | _ => None
  end.

End Factory.

(** Modelled from the spec: [IsSafeAnnotation] and [RegexString] are
    not under src/.  The message of the factory reads "labels must fit
    the regex": a label is safe when each of its characters is in the
    class the regex allows. *)
Definition fitsRegex (safeChar : ascii -> bool) (s : string) : bool :=
  forallb safeChar (list_ascii_of_string s).

(** A class of label characters: ASCII letters, digits, dot, dash and
    underscore. *)
Definition labelChar (c : ascii) : bool :=
  let n := nat_of_ascii c in
  ((48 <=? n) && (n <=? 57) || (65 <=? n) && (n <=? 90)
   || (97 <=? n) && (n <=? 122) || (n =? 45) || (n =? 46) || (n =? 95))%nat.

(** The test of the factory loop on one annotation. *)
Definition admits (IsSafeAnnotation : string -> bool) (a : string) : bool :=
  IsSafeAnnotation a && negb (String.eqb a "").

(** A call of the factory in which every helper succeeds and labels
    are checked against [labelChar]. *)
Definition demoConstructDockerJob (annotations : list string)
  : option (DockerJob unit unit unit unit unit unit unit)
    * option error * list LogEntry :=
  ConstructDockerJob unit unit unit unit unit unit unit unit
    (fitsRegex labelChar) "A-Za-z0-9._-"
    (fun _ => inr []) (fun _ => inr []) (fun _ => None)
    (fun _ => "V1beta1"%string) (fun _ => inr tt)
    (inr (emptyJob unit unit unit unit unit unit unit))
    tt tt tt "1" "1Gb" "" tt [] [] [] [] ["echo"%string] "ubuntu"
    1 1 1 tt annotations "" "".

(** ** Public API test suite ([pkg/test/publicapi/server_test.go]) *)

(** [strings.HasPrefix] and [strings.Contains]. *)
Fixpoint strings_HasPrefix (s sub : string) : bool :=
  match sub, s with
  | EmptyString, _ => true
  | String c sub, String d s => Ascii.eqb c d && strings_HasPrefix s sub
  | String _ _, EmptyString => false
  end.

Fixpoint strings_Contains (s sub : string) : bool :=
  strings_HasPrefix s sub
  || match s with
     | EmptyString => false
     | String _ s => strings_Contains s sub
     end.

(** [strings.Repeat]. *)
Fixpoint strings_Repeat (s : string) (count : nat) : string :=
  match count with
  | O => ""
  | S count => s +:+ strings_Repeat s count
  end.

Record Response : Type := mkResponse {
  StatusCode : Z;
  Body : string
}.

(** The bytes of a state request besides the path it carries (the
    test's "due to headers we need MaxBytes minus 163"). *)
Definition headerBudget : Z := 163.

Definition requestBytes (path : string) : Z :=
  headerBudget + Z.of_nat (String.length path).

(** Modelled from the spec: the request handler of [pkg/publicapi] is
    not under src/; section 6: "request body size is capped
    (MaxBytesToReadInBody); exceeding returns 413 http: request body
    too large", and an unknown job is a 404 (section 7, [NotFound]). *)
Definition getStates (MaxBytesToReadInBody : Z) (known : string -> bool)
    (path : string) : Response :=
  if MaxBytesToReadInBody <? requestBytes path
  then mkResponse 413 "http: request body too large"
  else if known path
       then mkResponse 200 "{}"
       else mkResponse 404 "Job not found".

(** [client.Get]: the error of the call, [None] when it succeeded. *)
Definition client_Get (MaxBytesToReadInBody : Z) (known : string -> bool)
    (jobID : string) : option string :=
  let r := getStates MaxBytesToReadInBody known jobID in
  if StatusCode r =? 200 then None else Some (Body r).

Record testCase : Type := mkTestCase {
  tc_name : string;
  tc_size : Z;
  tc_expectError : bool
}.

(** The table of [TestMaxBodyReader]. *)
Definition maxSizeOfString (MaxBytesToReadInBody : Z) : Z :=
  MaxBytesToReadInBody - 163.

Definition testCases (MaxBytesToReadInBody : Z) : list testCase :=
  [ mkTestCase "Max - 1" (maxSizeOfString MaxBytesToReadInBody - 1) false;
    mkTestCase "Max" (maxSizeOfString MaxBytesToReadInBody) false;
    mkTestCase "Max + 1" (maxSizeOfString MaxBytesToReadInBody + 1) true ].

(** The body of the loop of [TestMaxBodyReader] on the error [err] the
    client returned: [true] when no assertion fails.  [err.Error()] on
    a nil error panics. *)
Definition maxBodyCasePasses (tc : testCase) (err : option string) : bool :=
  match err with
  | None => false
  | Some msg =>
      if negb (strings_Contains msg "Job not found")
      then if tc_expectError tc
           then strings_Contains msg "http: request body too large"
           else false
      else true
  end.

Definition TestMaxBodyReader (known : string -> bool) : bool :=
  let MaxBytesToReadInBody := 500 in
  forallb
    (fun tc =>
       maxBodyCasePasses tc
         (client_Get MaxBytesToReadInBody known
                     (strings_Repeat "a" (Z.to_nat (tc_size tc)))))
    (testCases MaxBytesToReadInBody).

(** [types.MountStatus] and [types.HealthInfo]; the sizes are
    [uint64]. *)
Record MountStatus : Type := mkMountStatus {
  All : Z;
  Used : Z;
  Free : Z
}.

Record HealthInfo : Type := mkHealthInfo {
  DiskFreeSpace_ROOT : MountStatus
}.

(** The conversion [int(x)] of a [uint64] on a 64-bit platform. *)
Definition int_of_uint64 (x : Z) : Z :=
  if x <? 2 ^ 63 then x else x - 2 ^ 64.

(** The two assertions of [TestHealthz] on the decoded response. *)
Definition TestHealthz_asserts (healthData : HealthInfo) : bool :=
  (0 <? int_of_uint64 (All (DiskFreeSpace_ROOT healthData)))
  && (Free (DiskFreeSpace_ROOT healthData)
      <? All (DiskFreeSpace_ROOT healthData)).

(** ** Transport test suite ([TestTransportEvents]) *)

(** The job events the test names. *)
Inductive JobEventType : Type :=
  | JobEventCreated
  | JobEventBid
  | JobEventBidAccepted
  | JobEventResults.

(** Byte-wise order of Go strings. *)
Definition string_le (a b : string) : Prop := String.leb a b = true.

#[global] Instance string_le_dec : RelDecision string_le.
Proof. intros a b. unfold string_le. apply _. Defined.

(** [sort.Strings]: the increasing rearrangement of the slice. *)
Definition sort_Strings (l : list string) : list string :=
  merge_sort string_le l.

Section TransportEvents.

(** [JobEventType.String()] is not under src/. *)
Variable JobEventType_String : JobEventType -> string.

Definition expectedEventNames : list string :=
  [ JobEventType_String JobEventCreated;
    JobEventType_String JobEventBid;
    JobEventType_String JobEventBidAccepted;
    JobEventType_String JobEventResults ].

(** The final assertion of [TestTransportEvents] on the events the
    transport recorded. *)
Definition TestTransportEvents_asserts (events : list JobEventType)
  : bool :=
  let actualEventNames := map JobEventType_String events in
  bool_decide (sort_Strings expectedEventNames
               = sort_Strings actualEventNames).

End TransportEvents.

(** The names as the constants spell them. *)
Definition eventTypeName (e : JobEventType) : string :=
  match e with
  | JobEventCreated => "Created"
  | JobEventBid => "Bid"
  | JobEventBidAccepted => "BidAccepted"
  | JobEventResults => "Results"
  end.

(** The list of names the specification gives for the same scenario. *)
Definition specEventNames : list string :=
  ["BidAccepted"; "Created"; "Results"; "ResultAccepted"; "Published"]%string.

(** ** Docker caches ([pkg/docker/cache.go]) *)

Definition isDigit (c : ascii) : bool :=
  ((48 <=? nat_of_ascii c) && (nat_of_ascii c <=? 57))%nat.

Definition digitValue (c : ascii) : Z := Z.of_nat (nat_of_ascii c) - 48.

(** The leading decimal digits of [s]: their value, how many there
    are, and the rest of [s]. *)
Fixpoint leadingDigits (s : string) (acc : Z) (n : nat) : Z * nat * string :=
  match s with
  | String c s' =>
      if isDigit c then leadingDigits s' (acc * 10 + digitValue c) (S n)
      else (acc, n, s)
  | EmptyString => (acc, n, s)
  end.

(** The leading run of [s] that is neither a digit nor a dot: the unit
    of the duration. *)
Fixpoint leadingUnit (s : string) : string * string :=
  match s with
  | String c s' =>
      if isDigit c || Ascii.eqb c "."
      then (EmptyString, s)
      else let '(u, rest) := leadingUnit s' in (String c u, rest)
  | EmptyString => (EmptyString, s)
  end.

Definition Nanosecond : Z := 1.
Definition Microsecond : Z := 1000 * Nanosecond.
Definition Millisecond : Z := 1000 * Microsecond.
Definition Second : Z := 1000 * Millisecond.
Definition Minute : Z := 60 * Second.
Definition Hour : Z := 60 * Minute.

(** [unitMap] of package [time]; the two spellings of the micro sign
    are given by their UTF-8 bytes. *)
Definition unitMap (u : string) : option Z :=
  if String.eqb u "ns" then Some Nanosecond
  else if String.eqb u "us" then Some Microsecond
  else if String.eqb u (String (ascii_of_nat 194) (String (ascii_of_nat 181) "s"))
       then Some Microsecond
  else if String.eqb u (String (ascii_of_nat 206) (String (ascii_of_nat 188) "s"))
       then Some Microsecond
  else if String.eqb u "ms" then Some Millisecond
  else if String.eqb u "s" then Some Second
  else if String.eqb u "m" then Some Minute
  else if String.eqb u "h" then Some Hour
  else None.

(** The loop of [time.ParseDuration] over the groups "number unit";
    [None] is a malformed or overflowing duration.  Each round consumes
    at least one byte, so the length of the input bounds the rounds.
    Fraction digits are accumulated exactly, where Go goes through
    [float64]. *)
Fixpoint parseDurationLoop (fuel : nat) (s : string) (d : Z) : option Z :=
  match s with
  | EmptyString => Some d
  | String c0 _ =>
      match fuel with
      | O => None
      | S fuel =>
          if negb (isDigit c0 || Ascii.eqb c0 ".") then None
          else
            let '(v, pre, s1) := leadingDigits s 0 0 in
            if 2 ^ 63 <? v then None
            else
              let '(f, post, s2) :=
                match s1 with
                | String "."%char s1' => leadingDigits s1' 0 0
                | _ => (0, O, s1)
                end in
              if ((pre =? 0) && (post =? 0))%nat then None
              else
                let '(u, s3) := leadingUnit s2 in
                match unitMap u with
                | None => None
                | Some unit =>
                    if 2 ^ 63 / unit <? v then None
                    else
                      let v := v * unit + f * unit / 10 ^ Z.of_nat post in
                      if 2 ^ 63 <? v then None
                      else if 2 ^ 63 <? d + v then None
                      else parseDurationLoop fuel s3 (d + v)
                end
      end
  end.

Definition invalidDuration (s : string) : error :=
  mkError InvalidJob ("time: invalid duration " +:+ s).

(** [time.ParseDuration]: a [time.Duration] counts nanoseconds. *)
Definition time_ParseDuration (orig : string) : Z * option error :=
  let '(neg, s) :=
    match orig with
    | String "-"%char s => (true, s)
    | String "+"%char s => (false, s)
    | _ => (false, orig)
    end in
  if String.eqb s "0" then (0, None)
  else if String.eqb s "" then (0, Some (invalidDuration orig))
  else
    match parseDurationLoop (String.length s) s 0 with
    | None => (0, Some (invalidDuration orig))
    | Some d =>
        if neg then (- d, None)
        else if 2 ^ 63 - 1 <? d then (0, Some (invalidDuration orig))
        else (d, None)
    end.

(** [strconv.ParseUint(k, 10, 64)]. *)
Definition strconv_ParseUint10 (k : string) : Z * option error :=
  let '(v, n, rest) := leadingDigits k 0 0 in
  if (n =? 0)%nat || negb (String.eqb rest "")
  then (0, Some (mkError InvalidJob "strconv.ParseUint: invalid syntax"))
  else if 2 ^ 64 - 1 <? v
       then (2 ^ 64 - 1,
             Some (mkError InvalidJob "strconv.ParseUint: value out of range"))
       else (v, None).

(** Modelled from the spec: [util.GetEnvAs] is not under src/; section
    6 gives the variables and "defaults": the default stands when the
    variable is unset or does not parse. *)
Definition GetEnvAs {T : Type} (env : gmap string string) (key : string)
    (def : T) (convert : string -> T * option error) : T :=
  match env !! key with
  | None => def
  | Some val =>
      if String.eqb val "" then def
      else match convert val with
           | (_, Some _) => def
           | (converted, None) => converted
           end
  end.

(** Modelled from the spec: the cache of [pkg/cache/basic] is not
    under src/; section 9 names its configuration
    "{TTL, CleanupFrequency, MaxCost}". *)
Record CacheConfig : Type := mkCacheConfig {
  CleanupFrequency : Z;
  MaxCost : Z;
  TTL : Z
}.

Inductive CacheOption : Type :=
  | WithCleanupFrequency (d : Z)
  | WithMaxCost (n : Z)
  | WithTTL (d : Z).

Definition applyCacheOption (c : CacheConfig) (o : CacheOption)
  : CacheConfig :=
  match o with
  | WithCleanupFrequency d => mkCacheConfig d (MaxCost c) (TTL c)
  | WithMaxCost n => mkCacheConfig (CleanupFrequency c) n (TTL c)
  | WithTTL d => mkCacheConfig (CleanupFrequency c) (MaxCost c) d
  end.

Definition NewCache (opts : list CacheOption) : CacheConfig :=
  fold_left applyCacheOption opts (mkCacheConfig 0 0 0).

Definition DefaultCacheSize : Z := 1000.

Definition tagCacheSizeEnvVar : string := "DOCKER_TAG_CACHE_SIZE".
Definition tagCacheDurationEnvVar : string := "DOCKER_TAG_CACHE_DURATION".
Definition tagCacheCheckFrequencyEnvVar : string := "DOCKER_TAG_CACHE_FREQUENCY".
Definition manifestCacheSizeEnvVar : string := "DOCKER_MANIFEST_CACHE_SIZE".
Definition manifestCacheDurationEnvVar : string :=
  "DOCKER_MANIFEST_CACHE_DURATION".
Definition manifestCacheCheckFrequencyEnvVar : string :=
  "DOCKER_MANIFEST_CACHE_FREQUENCY".

(** The package-level variables of [pkg/docker]; a cache that has not
    been built is [None]. *)
Record Package : Type := mkPackage {
  DockerTagCache : option CacheConfig;
  DockerManifestCache : option CacheConfig;
  DefaultCacheDuration : Z;
  DefaultTagCacheFrequency : Z;
  DefaultManifestCacheFrequency : Z
}.

(** The package before [init] runs: every variable has its zero value. *)
Definition packageZero : Package := mkPackage None None 0 0 0.

Definition set_DockerTagCache (c : CacheConfig) (p : Package) : Package :=
  mkPackage (Some c) (DockerManifestCache p) (DefaultCacheDuration p)
            (DefaultTagCacheFrequency p) (DefaultManifestCacheFrequency p).

Definition set_DockerManifestCache (c : CacheConfig) (p : Package) : Package :=
  mkPackage (DockerTagCache p) (Some c) (DefaultCacheDuration p)
            (DefaultTagCacheFrequency p) (DefaultManifestCacheFrequency p).

Definition set_DefaultTagCacheFrequency (d : Z) (p : Package) : Package :=
  mkPackage (DockerTagCache p) (DockerManifestCache p)
            (DefaultCacheDuration p) d (DefaultManifestCacheFrequency p).

Definition set_DefaultManifestCacheFrequency (d : Z) (p : Package) : Package :=
  mkPackage (DockerTagCache p) (DockerManifestCache p)
            (DefaultCacheDuration p) (DefaultTagCacheFrequency p) d.

(** [init].  Its first statement is a short variable declaration
    ([:=]): it declares a variable local to [init] that hides the
    package-level [DefaultCacheDuration], which is never assigned.  The
    local is bound by [let] under the same name below. *)
Definition init (env : gmap string string) (pkg : Package) : Package :=
  let DefaultCacheDuration := fst (time_ParseDuration "1h") in
  let pkg := set_DefaultTagCacheFrequency DefaultCacheDuration pkg in
  let pkg := set_DefaultManifestCacheFrequency DefaultCacheDuration pkg in
  let tagCacheDuration :=
    GetEnvAs env tagCacheDurationEnvVar DefaultCacheDuration
             time_ParseDuration in
  let tagCacheFrequency :=
    GetEnvAs env tagCacheCheckFrequencyEnvVar (DefaultTagCacheFrequency pkg)
             time_ParseDuration in
  let manifestCacheDuration :=
    GetEnvAs env manifestCacheDurationEnvVar DefaultCacheDuration
             time_ParseDuration in
  let manifestCacheFrequency :=
    GetEnvAs env manifestCacheCheckFrequencyEnvVar
             (DefaultManifestCacheFrequency pkg) time_ParseDuration in
  let tagCacheSize :=
    GetEnvAs env tagCacheSizeEnvVar DefaultCacheSize strconv_ParseUint10 in
  let manifestCacheSize :=
    GetEnvAs env manifestCacheSizeEnvVar DefaultCacheSize
             strconv_ParseUint10 in
  let pkg :=
    set_DockerTagCache
      (NewCache [WithCleanupFrequency tagCacheFrequency;
                 WithMaxCost tagCacheSize;
                 WithTTL tagCacheDuration]) pkg in
  set_DockerManifestCache
    (NewCache [WithCleanupFrequency manifestCacheFrequency;
               WithMaxCost manifestCacheSize;
               WithTTL manifestCacheDuration]) pkg.

(** ** Concrete schedulers and worlds *)

Definition demoRoster : list NodeInfo := ["n1"; "n2"; "n3"]%string.

Definition demoExecution (node : string) (st : ExecutionStateType)
    (status : string) (t : Z) (proposal : option string) : ExecutionState :=
  mkExecution "job-1" node st status t proposal None.

(** A world that holds one job and its state. *)
Definition worldOf (job : Job) (st : JobStateType)
    (executions : list ExecutionState) : World :=
  mkWorld {[ ID job := job ]}
          {[ ID job := mkJobState (ID job) executions st "" ]} [] [].

Definition executionsOf (jobID : string) (w : World) : list ExecutionState :=
  match states w !! jobID with
  | Some js => JS_Executions js
  | None => []
  end.

Definition jobStateOf (jobID : string) (w : World) : option JobStateType :=
  JS_State <$> states w !! jobID.

(** One proposal awaits a verifier that is out of order. *)
Definition brokenVerifierScheduler : BaseScheduler :=
  mkBaseScheduler (specNodeSelector demoRoster 3) (fixedRetryStrategy true)
                  brokenVerifier.

Definition singleJob : Job := mkJob "job-1" (mkDeal 1 1 1).

Definition proposedWorld : World :=
  worldOf singleJob JobStateInProgress
    [demoExecution "n1" ExecutionStateResultProposed "" 7 (Some "hashA")].

(** A selector whose retry selection fails and proposes no node. *)
Definition failingSelector : NodeSelector :=
  mkNodeSelector
    (fun _ _ => ([], Some (mkError SelectorError "no nodes discovered")))
    (specSelectBids) (specCanCompleteJob).

Definition failingSelectorScheduler : BaseScheduler :=
  mkBaseScheduler failingSelector (fixedRetryStrategy true) noopVerifier.

Definition idleWorld : World := worldOf singleJob JobStateInProgress [].

(** One node failed, a second proposed a result, two agreeing results
    are wanted and no retry is permitted. *)
Definition exhaustedScheduler : BaseScheduler :=
  mkBaseScheduler (specNodeSelector demoRoster 3) (fixedRetryStrategy false)
                  deterministicVerifier.

Definition pairJob : Job := mkJob "job-1" (mkDeal 2 2 2).

Definition failedAndProposedWorld : World :=
  worldOf pairJob JobStateInProgress
    [demoExecution "n1" ExecutionStateFailed "out of memory" 5 None;
     demoExecution "n2" ExecutionStateResultProposed "" 7 (Some "hashA")].

(** One proposal awaits a second one; nothing has failed. *)
Definition waitingScheduler : BaseScheduler :=
  mkBaseScheduler (specNodeSelector demoRoster 3) (fixedRetryStrategy true)
                  deterministicVerifier.

Definition waitingWorld : World :=
  worldOf pairJob JobStateInProgress
    [demoExecution "n2" ExecutionStateResultProposed "" 7 (Some "hashA")].

(** One node failed and retries are permitted. *)
Definition retryScheduler : BaseScheduler :=
  mkBaseScheduler (specNodeSelector demoRoster 3) (fixedRetryStrategy true)
                  noopVerifier.

Definition oneFailedWorld : World :=
  worldOf singleJob JobStateInProgress
    [demoExecution "n1" ExecutionStateFailed "out of memory" 5 None].

(** A job that has completed. *)
Definition completedWorld : World :=
  worldOf singleJob JobStateCompletedSuccessfully
    [demoExecution "n1" ExecutionStateCompleted "" 9 (Some "hashA")].

Definition lateBid : Event :=
  mkEvent EvBidReceived "job-1" "n2" "" 11 "".

(** Twice in succession. *)
Definition twice (f : World -> option World) (w : World) : option World :=
  match f w with
  | Some w => f w
  | None => None
  end.

(** ** Further readings of the failed-execution loop *)

(** The line [checkForFailedExecutions] appends for one failure. *)
Definition failureLine (e : ExecutionState) : string :=
  "node " +:+ E_NodeID e +:+ " failed due to: " +:+ E_Status e.

(** [finalErr] at the end of the loop of [checkForFailedExecutions]:
    the flat list of the errors appended. *)
Definition failedReasons (jobState : JobState) : list string :=
  snd (fst (fold_left failedLoopStep (JS_Executions jobState)
                      (zeroExecution, [], ""%string))).

(** The executions of a list that are in state [Failed]. *)
Definition failedExecutions (es : list ExecutionState) : list ExecutionState :=
  List.filter (fun e => bool_decide (E_State e = ExecutionStateFailed)) es.

(** The failures the loop of [checkForFailedExecutions] takes up, when
    the last one it took was updated at [t]: a [Failed] execution is
    taken when it was updated after it. *)
Fixpoint reportedFailures (t : Z) (es : list ExecutionState)
  : list ExecutionState :=
  match es with
  | [] => []
  | e :: es =>
      if bool_decide (E_State e = ExecutionStateFailed) && (t <? E_UpdateTime e)
      then e :: reportedFailures (E_UpdateTime e) es
      else reportedFailures t es
  end.

(** The coarse state and status of every job of a world. *)
Definition jobStatuses (w : World) : gmap string (JobStateType * string) :=
  (fun js => (JS_State js, JS_Status js)) <$> states w.

Definition bidEvent (name : EventName) (bid : ExecutionState) : Event :=
  mkEvent name (E_JobID bid) "" (E_NodeID bid) 0 "".

(** The events published up to [w] are still the first events
    published up to [w']. *)
Definition outboxGrows (w w' : World) : Prop :=
  exists l, outbox w' = outbox w ++ l.

(** ** The request-size test against any client *)

(** [TestMaxBodyReader] with the client call left open: [get] is
    [s.client.Get] reduced to the error it returns. *)
Definition TestMaxBodyReaderWith (get : string -> option string) : bool :=
  let MaxBytesToReadInBody := 500 in
  forallb
    (fun tc =>
       maxBodyCasePasses tc (get (strings_Repeat "a" (Z.to_nat (tc_size tc)))))
    (testCases MaxBytesToReadInBody).

(** ** Devstack ([package devstack]) *)

Module devstack.

(** [types.JobState] and [types.Job], with the fields the devstack
    reads; [State] of a job is given in the order a [range] over it
    yields its entries.  A Go [error] is its message here. *)
Record JobState : Type := mkJobState { State : string }.

Record Job : Type := mkJob {
  Id : string;
  Job_State : list JobState
}.

(** [%d]. *)
Definition itoa (n : Z) : string := NilZero.string_of_int (Z.to_int n).

(** [GetJobStates], on the reply of [jsonrpc.ListJobs]. *)
Definition GetJobStates (listJobs : string + list Job) (jobId : string)
  : list string * option string :=
  match listJobs with
  | inl err => ([], Some err)
  | inr jobs =>
      match find (fun j => String.eqb (Id j) jobId) jobs with
      | None => ([], Some "job not found"%string)
      | Some jobData => (map State (Job_State jobData), None)
      end
  end.

(** The first loop of the handler of [WaitForJob]: the state that is
    an error state, when the loop returns early, or the counts. *)
Fixpoint countStates (errorStates : list string) (states : list string)
    (foundStates : gmap string Z) : string + gmap string Z :=
  match states with
  | [] => inr foundStates
  | state :: states =>
      if existsb (String.eqb state) errorStates then inl state
      else
        let foundStates :=
          match foundStates !! state with
          | Some _ => foundStates
          | None => <[state := 0]> foundStates
          end in
        let foundStates :=
          <[state := default 0 (foundStates !! state) + 1]> foundStates in
        countStates errorStates states foundStates
  end.

(** The second loop of the handler, over the entries of
    [expectedStates] in the order the [range] yields them: the error of
    the first entry whose count differs. *)
Fixpoint compareStates (foundStates : gmap string Z)
    (expectedStates : list (string * Z)) : option string :=
  match expectedStates with
  | [] => None
  | (expectedState, expectedCount) :: expectedStates =>
      let foundCount :=
        match foundStates !! expectedState with
        | Some c => c
        | None => 0
        end in
      if negb (foundCount =? expectedCount)
      then Some ("job has " +:+ itoa foundCount +:+ " " +:+ expectedState
                 +:+ " states, expected " +:+ itoa expectedCount)
      else compareStates foundStates expectedStates
  end.

(** The [Handler] of the waiter of [WaitForJob]: whether to stop
    waiting, and the error. *)
Definition WaitForJob_Handler (listJobs : string + list Job) (jobId : string)
    (expectedStates : list (string * Z)) (errorStates : list string)
  : bool * option string :=
  match GetJobStates listJobs jobId with
  | (_, Some err) => (false, Some err)
  | (states, None) =>
      match countStates errorStates states ∅ with
      | inl state => (true, Some ("job has error state: " +:+ state))
      | inr foundStates =>
          match compareStates foundStates expectedStates with
          | Some err => (false, Some err)
          | None => (true, None)
          end
      end
  end.

Section Constants.

(** [system.JOB_STATE_ERROR] and [system.JOB_STATE_COMPLETE] are not
    under src/. *)
Variables JOB_STATE_ERROR JOB_STATE_COMPLETE : string.

(** The handler [WaitForJobWithError] sets up. *)
Definition WaitForJobWithError_Handler (listJobs : string + list Job)
    (jobId : string) (expectedStates : list (string * Z))
  : bool * option string :=
  WaitForJob_Handler listJobs jobId expectedStates [JOB_STATE_ERROR].

(** The handler [WaitForJobWithConcurrency] sets up. *)
Definition WaitForJobWithConcurrency_Handler (listJobs : string + list Job)
    (jobId : string) (concurrency : Z) : bool * option string :=
  let expectedStates := [(JOB_STATE_COMPLETE, concurrency)] in
  WaitForJobWithError_Handler listJobs jobId expectedStates.

End Constants.

(** A node of the stack, by what [AddFileToNodes] asks of it: the reply
    of [ComputeNode.Transport.HostId()] and of [IpfsCli.Run]. *)
Record DevStackNode : Type := mkDevStackNode {
  HostId : string + string;
  IpfsCli_Run : list string -> string + string
}.

Section AddFile.

(** [strings.TrimSpace]. *)
Variable TrimSpace : string -> string.

(** The loop of [AddFileToNodes] from the node of index [i] on;
    [ran] lists the indices of the nodes whose [ipfs add] has run. *)
Fixpoint AddFileToNodes_from (nodeCount : Z) (filePath : string) (i : nat)
    (nodes : list DevStackNode) (returnFileCid : string) (ran : list nat)
  : string * option string * list nat :=
  match nodes with
  | [] => (returnFileCid, None, ran)
  | node :: nodes =>
      if nodeCount <=? Z.of_nat i
      then AddFileToNodes_from nodeCount filePath (S i) nodes returnFileCid ran
      else
        match HostId node with
        | inl err => (""%string, Some err, ran)
        | inr nodeId =>
            match IpfsCli_Run node ["add"; "-Q"; filePath]%string with
            | inl err => (""%string, Some err, ran ++ [i])
            | inr fileCid =>
                AddFileToNodes_from nodeCount filePath (S i) nodes
                                    (TrimSpace fileCid) (ran ++ [i])
            end
        end
  end.

Definition AddFileToNodes (nodes : list DevStackNode) (nodeCount : Z)
    (filePath : string) : string * option string * list nat :=
  AddFileToNodes_from nodeCount filePath 0 nodes "" [].

End AddFile.

(** How many times [state] occurs in [states]. *)
Definition occurrences (state : string) (states : list string) : Z :=
  Z.of_nat (length (List.filter (String.eqb state) states)).

End devstack.

(** ** WASM log manager ([package wasmlogs]) *)

Module wasmlogs.

(** [LogMessage], with the fields [GetWriters] sets. *)
Record LogMessage : Type := mkLogMessage {
  Timestamp : Z;
  Stream : string;
  Data : list Byte.byte
}.

(** What [processItem] changes: the messages handed to the
    broadcaster, the bytes of the log file, [lifetimeBytes] and the
    log lines. *)
Record LogManager : Type := mkLogManager {
  broadcasted : list LogMessage;
  file : list Byte.byte;
  lifetimeBytes : Z;
  logged : list LogEntry
}.

(** An [int64] result. *)
Definition wrap64 (x : Z) : Z := (x + 2 ^ 63) mod 2 ^ 64 - 2 ^ 63.

Section Writer.

(** [json.Marshal] of a message, [json.Compact] of its bytes, and
    [lm.file.Write]: the count of bytes written and the error. *)
Variable Marshal : LogMessage -> string + list Byte.byte.
Variable Compact : list Byte.byte -> string + list Byte.byte.
Variable Write : list Byte.byte -> list Byte.byte -> Z * option string.

Definition addLog (l : LogEntry) (lm : LogManager) : LogManager :=
  mkLogManager (broadcasted lm) (file lm) (lifetimeBytes lm) (logged lm ++ [l]).

(** [processItem].  [compactBuffer] is passed by value: what is
    written to it here is not seen by the caller. *)
Definition processItem (msg : option LogMessage)
    (compactBuffer : list Byte.byte) (lm : LogManager) : LogManager :=
  match msg with
  | None => lm
  | Some msg =>
      let lm :=
        mkLogManager (broadcasted lm ++ [msg]) (file lm)
          (wrap64 (lifetimeBytes lm + Z.of_nat (length (Data msg))))
          (logged lm) in
      match Marshal msg with
      | inl err =>
          addLog (mkLogEntry LevelError
                    "failed to unmarshall a wasm log message") lm
      | inr data =>
          match Compact data with
          | inl err =>
              addLog (mkLogEntry LevelError
                        "failed to compact wasm log message") lm
          | inr compact =>
              let bytes := compactBuffer ++ compact ++ [Byte.x0a] in
              let '(wrote, err) := Write (file lm) bytes in
              let lm :=
                mkLogManager (broadcasted lm)
                  (file lm ++ take (Z.to_nat wrote) bytes)
                  (lifetimeBytes lm) (logged lm) in
              match err with
              | Some _ =>
                  addLog (mkLogEntry LevelError
                            "failed to write wasm log to file") lm
              | None =>
                  if wrote =? 0
                  then addLog (mkLogEntry LevelDebug
                                 "zero byte write in wasm logging") lm
                  else lm
              end
          end
      end
  end.

(** The end of [logWriter]: the items drained from the ring buffer are
    processed in order; the buffer the caller holds is empty, as
    nothing has been written to it. *)
Definition drainItems (extra : list (option LogMessage)) (lm : LogManager)
  : LogManager :=
  fold_left (fun lm m => processItem m [] lm) extra lm.

End Writer.

(** The messages of a list of items: the sentinels are dropped. *)
Definition messages (items : list (option LogMessage)) : list LogMessage :=
  omap id items.

Definition dataBytes (msgs : list LogMessage) : Z :=
  fold_right (fun m n => Z.of_nat (length (Data m)) + n) 0 msgs.

End wasmlogs.

(** ** The get test ([cmd/bacalhau/get_test.go]) *)

(** [strings.Replace(s, old, "", 1)]: [s] without the first
    occurrence of [old]. *)
Fixpoint dropBytes (n : nat) (s : string) : string :=
  match n, s with
  | S n, String _ s => dropBytes n s
  | _, _ => s
  end.

Fixpoint strings_RemoveFirst (s old : string) : string :=
  if strings_HasPrefix s old then dropBytes (String.length old) s
  else match s with
       | EmptyString => EmptyString
       | String c s => String c (strings_RemoveFirst s old)
       end.

(** The callback [testResultsFolderStructure] passes to
    [filepath.Walk], over the paths the walk hands to it, in order:
    the paths kept in [files]. *)
Definition walkedFiles (baseFolder : string) (walked : list string)
  : list string :=
  List.filter (fun usePath => negb (String.eqb usePath ""))
              (map (fun path => strings_RemoveFirst path baseFolder) walked).

Section ResultsFolder.

(** [ipfs.DownloadVolumesFolderName] and [system.GetShortID(hostID)]
    are not under src/. *)
Variables DownloadVolumesFolderName shortHostID : string.

(** The listing [testResultsFolderStructure] expects. *)
Definition expectedResultsListing : list string :=
  [ "/" +:+ DownloadVolumesFolderName;
    "/" +:+ DownloadVolumesFolderName +:+ "/0";
    "/" +:+ DownloadVolumesFolderName +:+ "/0/node_" +:+ shortHostID
        +:+ "_exitCode";
    "/" +:+ DownloadVolumesFolderName +:+ "/0/node_" +:+ shortHostID
        +:+ "_stderr";
    "/" +:+ DownloadVolumesFolderName +:+ "/0/node_" +:+ shortHostID
        +:+ "_stdout";
    "/stderr";
    "/stdout";
    "/" +:+ DownloadVolumesFolderName;
    "/" +:+ DownloadVolumesFolderName +:+ "/outputs" ]%string.

(** The assertion of [testResultsFolderStructure]: the two listings,
    joined by commas, are the same string. *)
Definition testResultsFolderStructure_asserts (baseFolder : string)
    (walked : list string) : bool :=
  String.eqb (String.concat "," expectedResultsListing)
             (String.concat "," (walkedFiles baseFolder walked)).

End ResultsFolder.

(** A string without a comma. *)
Definition commaFree (s : string) : bool :=
  forallb (fun c => negb (Ascii.eqb c ",")) (list_ascii_of_string s).

(** A Go loop [for i := 0; i < n; i++ { body }] whose body does not
    read [i]. *)
Definition times {A : Type} (n : Z) (body : A -> A) (a : A) : A :=
  Nat.iter (Z.to_nat n) body a.

(** The submissions of one case of [TestGetJob]: [submitted] counts the
    calls of [c.Submit], [newID] gives the identifier of each, and the
    result is the count and [submittedJobID] after the loops.  The
    branch taken when [runNoopJob] is false submits through the command
    line; [runNoopJob] is the constant [true]. *)
Definition TestGetJob_submit (newID : nat -> string) (NumberOfNodes : Z)
    (numOfJobs : Z) (st : nat * string) : nat * string :=
  times NumberOfNodes
    (times numOfJobs
       (fun st =>
          let runNoopJob := true in
          if runNoopJob
          then times NumberOfNodes
                 (times numOfJobs
                    (fun '(submitted, submittedJobID) =>
                       (S submitted, newID submitted))) st
          else st)) st.

(** ** Relations between the world before and after an operation *)

(** The stop calls of [w'] are those of [w] followed by calls that all
    pass [false] as their last argument. *)
Definition stopsNonPermanent (w w' : World) : Prop :=
  exists l, stopCalls w' = stopCalls w ++ l
            /\ Forall (fun c => stop_permanent c = false) l.

(** Every job state that is terminal in [w] is the same in [w']. *)
Definition keepsTerminal (w w' : World) : Prop :=
  forall id js, states w !! id = Some js ->
                IsTerminal (JS_State js) = true ->
                states w' !! id = Some js.

(** Every job state known in [w] is known in [w']. *)
Definition keepsKnown (w w' : World) : Prop :=
  forall id, is_Some (states w !! id) -> is_Some (states w' !! id).

Definition extends (w w' : World) : Prop :=
  jobs w' = jobs w /\ keepsKnown w w' /\ keepsTerminal w w'
  /\ stopsNonPermanent w w'.

(** A job on which a pass has nothing to do: it is unknown to the
    store, or terminal, or its snapshot is quiescent. *)
Definition settled (s : BaseScheduler) (jobID : string) (w : World) : Prop :=
  match states w !! jobID with
  | None => True
  | Some js =>
      IsTerminal (JS_State js) = true
      \/ match jobs w !! jobID with
         | None => True
         | Some job => quiescent s job js
         end
  end.

(** * Properties *)

(** ** How the store operations change a world *)

Ltac world_simpl := cbn [jobs states outbox stopCalls fst snd] in *.

Lemma extends_refl w : extends w w.
Proof.
  repeat split; [intros id H; exact H | intros id js H _; exact H|].
  exists []. rewrite app_nil_r. auto.
Qed.

Lemma extends_trans w1 w2 w3 : extends w1 w2 -> extends w2 w3 -> extends w1 w3.
Proof.
  intros (Hj1 & Hn1 & Hk1 & l1 & Hs1 & Hf1) (Hj2 & Hn2 & Hk2 & l2 & Hs2 & Hf2).
  repeat split.
  - congruence.
  - intros id H. apply Hn2, Hn1, H.
  - intros id js H Ht. apply Hk2; [apply Hk1|]; assumption.
  - exists (l1 ++ l2). split.
    + rewrite Hs2, Hs1, app_assoc. reflexivity.
    + apply Forall_app. auto.
Qed.

Lemma extends_fold {A} (f : World -> A -> World) (l : list A) :
  (forall w a, extends w (f w a)) ->
  forall w, extends w (fold_left f l w).
Proof.
  intros Hf. induction l as [|a l IH]; intros w; simpl.
  - apply extends_refl.
  - eapply extends_trans; [apply Hf | apply IH].
Qed.

Lemma same_calls_stopsNonPermanent w w' :
  stopCalls w' = stopCalls w -> stopsNonPermanent w w'.
Proof. intros H. exists []. rewrite app_nil_r. auto. Qed.

Lemma updateExecutions_terminal jobID f w js :
  states w !! jobID = Some js -> IsTerminal (JS_State js) = true ->
  updateExecutions jobID f w = w.
Proof. intros H Ht. unfold updateExecutions. rewrite H, Ht. reflexivity. Qed.

Lemma updateExecutions_extends jobID f w :
  extends w (updateExecutions jobID f w).
Proof.
  unfold updateExecutions.
  destruct (states w !! jobID) as [js|] eqn:E; [|apply extends_refl].
  destruct (IsTerminal (JS_State js)) eqn:Et; [apply extends_refl|].
  repeat split; cbn [jobs states outbox stopCalls].
  - intros id H. world_simpl. destruct (decide (jobID = id)) as [->|Hne].
    + rewrite lookup_insert_eq. eauto.
    + rewrite lookup_insert_ne; assumption.
  - intros id js' H Ht. world_simpl. destruct (decide (jobID = id)) as [->|Hne].
    + rewrite E in H. congruence.
    + rewrite lookup_insert_ne; assumption.
  - apply same_calls_stopsNonPermanent. reflexivity.
Qed.

Lemma publish_extends e w : extends w (publish e w).
Proof.
  repeat split; simpl; [intros id H; exact H | intros id js H _; exact H|].
  apply same_calls_stopsNonPermanent. reflexivity.
Qed.

Lemma UpdateJobState_terminal w r js :
  states w !! Req_JobID r = Some js -> IsTerminal (JS_State js) = true ->
  snd (UpdateJobState w r) = w.
Proof. intros H Ht. unfold UpdateJobState. rewrite H, Ht. reflexivity. Qed.

Lemma UpdateJobState_extends w r : extends w (snd (UpdateJobState w r)).
Proof.
  unfold UpdateJobState.
  destruct (states w !! Req_JobID r) as [js|] eqn:E; [|apply extends_refl].
  destruct (IsTerminal (JS_State js)) eqn:Et; [apply extends_refl|].
  repeat split; cbn [jobs states outbox stopCalls].
  - intros id H. world_simpl.
    destruct (decide (Req_JobID r = id)) as [<-|Hne].
    + rewrite lookup_insert_eq. eauto.
    + rewrite lookup_insert_ne; assumption.
  - intros id js' H Ht. world_simpl.
    destruct (decide (Req_JobID r = id)) as [<-|Hne].
    + rewrite E in H. congruence.
    + rewrite lookup_insert_ne; assumption.
  - apply same_calls_stopsNonPermanent. reflexivity.
Qed.

Lemma stopJob_calls jobID reason permanent w :
  stopCalls (stopJob jobID reason permanent w)
  = stopCalls w ++ [mkStopJobCall jobID reason permanent].
Proof.
  unfold stopJob. destruct (states w !! jobID) as [js|]; [|reflexivity].
  destruct (IsTerminal (JS_State js)); reflexivity.
Qed.

Lemma stopJob_jobs jobID reason permanent w :
  jobs (stopJob jobID reason permanent w) = jobs w.
Proof.
  unfold stopJob. destruct (states w !! jobID) as [js|]; [|reflexivity].
  destruct (IsTerminal (JS_State js)); reflexivity.
Qed.

Lemma stopJob_keepsTerminal jobID reason permanent w :
  keepsTerminal w (stopJob jobID reason permanent w).
Proof.
  intros id js H Ht. unfold stopJob.
  destruct (states w !! jobID) as [js0|] eqn:E; [|exact H].
  destruct (IsTerminal (JS_State js0)) eqn:Et; [exact H|].
  cbn [jobs states outbox stopCalls].
  destruct (decide (jobID = id)) as [->|Hne].
  - rewrite E in H. congruence.
  - rewrite lookup_insert_ne; assumption.
Qed.

Lemma stopJob_keepsKnown jobID reason permanent w :
  keepsKnown w (stopJob jobID reason permanent w).
Proof.
  intros id H. unfold stopJob.
  destruct (states w !! jobID) as [js0|] eqn:E; [|exact H].
  destruct (IsTerminal (JS_State js0)) eqn:Et; [exact H|].
  cbn [jobs states outbox stopCalls].
  destruct (decide (jobID = id)) as [->|Hne].
  - rewrite lookup_insert_eq. eauto.
  - rewrite lookup_insert_ne; assumption.
Qed.

Lemma stopJob_false_extends jobID reason w :
  extends w (stopJob jobID reason false w).
Proof.
  split; [apply stopJob_jobs|]. split; [apply stopJob_keepsKnown|].
  split; [apply stopJob_keepsTerminal|].
  exists [mkStopJobCall jobID reason false]. split; [apply stopJob_calls|].
  repeat constructor.
Qed.

(** After [stopJob] a known job is terminal. *)
Lemma stopJob_terminal jobID reason permanent w :
  is_Some (states w !! jobID) ->
  exists js, states (stopJob jobID reason permanent w) !! jobID = Some js
             /\ IsTerminal (JS_State js) = true.
Proof.
  intros [js H]. unfold stopJob. rewrite H.
  destruct (IsTerminal (JS_State js)) eqn:Et.
  - exists js. split; assumption.
  - cbn [jobs states outbox stopCalls]. rewrite lookup_insert_eq.
    eexists. split; reflexivity.
Qed.

(** A stopped job is [Failed] with the reason as its status, unless it
    was terminal already. *)
Lemma stopJob_state jobID reason permanent w js :
  states w !! jobID = Some js -> IsTerminal (JS_State js) = false ->
  states (stopJob jobID reason permanent w) !! jobID
  = Some (mkJobState (JS_JobID js) (JS_Executions js) JobStateFailed reason).
Proof.
  intros H Ht. unfold stopJob. rewrite H, Ht.
  cbn [jobs states outbox stopCalls].
  apply lookup_insert_eq.
Qed.

Lemma UpdateExecutionWith_extends jobID nodeID st f w :
  extends w (UpdateExecutionWith jobID nodeID st f w).
Proof. apply updateExecutions_extends. Qed.

Lemma notifyAskForBid_extends job nodes w :
  extends w (notifyAskForBid job nodes w).
Proof.
  unfold notifyAskForBid. apply extends_fold. intros w0 n.
  eapply extends_trans; [apply updateExecutions_extends | apply publish_extends].
Qed.

Lemma updateAndNotify_extends st name (r : ExecutionState) w :
  extends w
    (publish (mkEvent name (E_JobID r) "" (E_NodeID r) 0 "")
       (UpdateExecution (E_JobID r) (E_NodeID r) st "" w)).
Proof.
  eapply extends_trans; [apply updateExecutions_extends | apply publish_extends].
Qed.

Lemma verifyResult_extends s job executions w :
  extends w (snd (verifyResult s job executions w)).
Proof.
  unfold verifyResult.
  destruct (Verify (verifier s) job executions) as [[succeeded failed] [e|]];
    cbn [snd]; [apply extends_refl|].
  apply extends_trans
    with (fold_left (fun w r => updateAndNotifyResultAccepted r w) succeeded w);
    apply extends_fold; intros; apply updateAndNotify_extends.
Qed.

Lemma checkForFailedExecutions_extends s job jobState w :
  extends w (checkForFailedExecutions s job jobState w).
Proof.
  unfold checkForFailedExecutions.
  destruct (SelectNodesForRetry (nodeSelector s) job jobState) as [nodes err].
  destruct (notNil err || _); [apply stopJob_false_extends|].
  destruct (0 <? _); [apply notifyAskForBid_extends | apply extends_refl].
Qed.

Lemma checkForPendingBids_extends s job jobState w :
  extends w (checkForPendingBids s job jobState w).
Proof.
  unfold checkForPendingBids.
  destruct (SelectBids (nodeSelector s) job jobState) as [acc rej].
  apply extends_trans
    with (fold_left (fun w bid => updateAndNotifyBidAccepted bid w) acc w);
    apply extends_fold; intros; apply updateAndNotify_extends.
Qed.

Lemma checkForCompletedExecutions_extends s job jobState w :
  extends w (checkForCompletedExecutions s job jobState w).
Proof.
  unfold checkForCompletedExecutions.
  destruct (CanCompleteJob (nodeSelector s) job jobState) as [[|] newState];
    [apply UpdateJobState_extends | apply extends_refl].
Qed.

Lemma checkForPendingResults_extends s transition job jobState w w' :
  (forall id w0 w1, transition id w0 = Some w1 -> extends w0 w1) ->
  checkForPendingResults s transition job jobState w = Some w' ->
  extends w w'.
Proof.
  intros Ht. unfold checkForPendingResults.
  destruct (1 <=? _); [|intros [= <-]; apply extends_refl].
  pose proof (verifyResult_extends s job
    (GroupExecutionsByState jobState ExecutionStateResultProposed) w) as Hv.
  destruct (verifyResult _ _ _ _) as [[[succeeded failed] err] wv].
  simpl in Hv. destruct err as [e|].
  - destruct (IsErrInsufficientExecutions e); intros [= <-]; [exact Hv|].
    eapply extends_trans; [exact Hv | apply stopJob_false_extends].
  - destruct (0 <? _).
    + intros H. eapply extends_trans; [exact Hv | eapply Ht, H].
    + intros [= <-]. exact Hv.
Qed.

(** Whatever the collaborators do, a pass keeps the jobs, keeps every
    terminal job state as it is, and passes [false] to every stop
    routine it calls. *)
Lemma transitionJobStateLockFree_extends fuel s :
  forall jobID w w',
    transitionJobStateLockFree fuel s jobID w = Some w' -> extends w w'.
Proof.
  induction fuel as [|fuel IH]; intros jobID w w'; simpl; [discriminate|].
  destruct (GetJobState w jobID) as [e|jobState];
    [intros [= <-]; apply extends_refl|].
  destruct (IsTerminal (JS_State jobState));
    [intros [= <-]; apply extends_refl|].
  destruct (GetJob w jobID) as [e|job]; [intros [= <-]; apply extends_refl|].
  destruct (checkForPendingResults _ _ _ _ _) as [w3|] eqn:E3; [|discriminate].
  intros [= <-].
  eapply extends_trans; [apply checkForFailedExecutions_extends|].
  eapply extends_trans; [apply checkForPendingBids_extends|].
  eapply extends_trans;
    [eapply checkForPendingResults_extends; [apply IH | exact E3]|].
  apply checkForCompletedExecutions_extends.
Qed.

(** ** The pass step by step *)

Lemma GetJobState_inr w jobID js :
  GetJobState w jobID = inr js <-> states w !! jobID = Some js.
Proof.
  unfold GetJobState. destruct (states w !! jobID); split; congruence.
Qed.

Lemma GetJob_inr w jobID job :
  GetJob w jobID = inr job <-> jobs w !! jobID = Some job.
Proof. unfold GetJob. destruct (jobs w !! jobID); split; congruence. Qed.

(** The pass on a job that is loaded and not terminal: the four checks
    in their order, all on the snapshot loaded at the start. *)
Lemma transitionJobStateLockFree_unfold fuel s jobID w jobState job :
  GetJobState w jobID = inr jobState ->
  IsTerminal (JS_State jobState) = false ->
  GetJob w jobID = inr job ->
  transitionJobStateLockFree (S fuel) s jobID w
  = match checkForPendingResults s (transitionJobStateLockFree fuel s)
            job jobState
            (checkForPendingBids s job jobState
               (checkForFailedExecutions s job jobState w)) with
    | None => None
    | Some w => Some (checkForCompletedExecutions s job jobState w)
    end.
Proof. intros H1 H2 H3. cbn [transitionJobStateLockFree]. rewrite H1, H2, H3. reflexivity. Qed.

Lemma length_pos_nonempty {A} (l : list A) :
  (1 <=? Z.of_nat (length l)) = true <-> l <> [].
Proof.
  destruct l as [|a l]; split; try congruence.
  - intros H. discriminate H.
  - intros _. apply Z.leb_le. cbn [length]. lia.
Qed.

Lemma verifyResult_error s job executions w succeeded failed e :
  Verify (verifier s) job executions = (succeeded, failed, Some e) ->
  verifyResult s job executions w = ([], [], Some e, w).
Proof. intros H. unfold verifyResult. rewrite H. reflexivity. Qed.

(** The pending-results check when the verifier fails for another
    reason than a lack of executions. *)
Lemma checkForPendingResults_hard_error s transition job jobState w
    succeeded failed e :
  GroupExecutionsByState jobState ExecutionStateResultProposed <> [] ->
  Verify (verifier s) job
         (GroupExecutionsByState jobState ExecutionStateResultProposed)
  = (succeeded, failed, Some e) ->
  IsErrInsufficientExecutions e = false ->
  checkForPendingResults s transition job jobState w
  = Some (stopJob (ID job) (verifyErrMsg job e) false w).
Proof.
  intros Hne Hv He. unfold checkForPendingResults.
  apply length_pos_nonempty in Hne. rewrite Hne.
  rewrite (verifyResult_error _ _ _ _ _ _ _ Hv), He. reflexivity.
Qed.

(** The pending-results check when the verifier reports a lack of
    executions. *)
Lemma checkForPendingResults_insufficient s transition job jobState w
    succeeded failed e :
  Verify (verifier s) job
         (GroupExecutionsByState jobState ExecutionStateResultProposed)
  = (succeeded, failed, Some e) ->
  IsErrInsufficientExecutions e = true ->
  checkForPendingResults s transition job jobState w = Some w.
Proof.
  intros Hv He. unfold checkForPendingResults.
  destruct (1 <=? _); [|reflexivity].
  rewrite (verifyResult_error _ _ _ _ _ _ _ Hv), He. reflexivity.
Qed.

(** ** Verifier failures (C1) *)

(** C1, as the code has it.  When the verifier returns a hard error
    (an error that is not [InsufficientExecutions]) for a job with a
    proposed result, the pass returns, it has called [stopJob] with the
    message "failed to verify job <id>: <err>" and [false] as the last
    argument, the job is terminal afterwards, and no call of [stopJob]
    made by the pass passes [true]. *)
Theorem hard_verifier_error_stops_job
    fuel s jobID w jobState job succeeded failed e :
  GetJobState w jobID = inr jobState ->
  IsTerminal (JS_State jobState) = false ->
  GetJob w jobID = inr job ->
  ID job = jobID ->
  GroupExecutionsByState jobState ExecutionStateResultProposed <> [] ->
  Verify (verifier s) job
         (GroupExecutionsByState jobState ExecutionStateResultProposed)
  = (succeeded, failed, Some e) ->
  IsErrInsufficientExecutions e = false ->
  exists w',
    TransitionJobState (S fuel) s jobID w = Some w'
    /\ In (mkStopJobCall jobID (verifyErrMsg job e) false) (stopCalls w')
    /\ (exists js', states w' !! jobID = Some js'
                    /\ IsTerminal (JS_State js') = true)
    /\ (forall c, In c (stopCalls w') ->
                  In c (stopCalls w) \/ stop_permanent c = false).
Proof.
  intros Hs Ht Hj Hid Hne Hv He. unfold TransitionJobState.
  rewrite (transitionJobStateLockFree_unfold _ _ _ _ _ _ Hs Ht Hj).
  rewrite (checkForPendingResults_hard_error _ _ _ _ _ _ _ _ Hne Hv He).
  eexists. split; [reflexivity|].
  set (w2 := checkForPendingBids s job jobState
               (checkForFailedExecutions s job jobState w)).
  assert (E2 : extends w w2).
  { eapply extends_trans;
      [apply checkForFailedExecutions_extends
      | apply checkForPendingBids_extends]. }
  set (w3 := stopJob (ID job) (verifyErrMsg job e) false w2).
  pose proof (checkForCompletedExecutions_extends s job jobState w3)
    as (_ & _ & Hk4 & l4 & Hc4 & _).
  split; [|split].
  - rewrite Hc4. apply in_or_app. left. unfold w3.
    rewrite stopJob_calls, Hid. apply in_or_app. right. left. reflexivity.
  - destruct E2 as (_ & Hn2 & _).
    destruct (stopJob_terminal (ID job) (verifyErrMsg job e) false w2)
      as (js' & Hjs' & Hterm).
    { rewrite Hid. apply Hn2. apply GetJobState_inr in Hs. eauto. }
    exists js'. split; [|exact Hterm].
    rewrite <- Hid. apply Hk4; assumption.
  - assert (E : extends w (checkForCompletedExecutions s job jobState w3)).
    { eapply extends_trans; [exact E2|].
      eapply extends_trans; [apply stopJob_false_extends|].
      apply checkForCompletedExecutions_extends. }
    destruct E as (_ & _ & _ & l & Hl & Hf). intros c Hc.
    rewrite Hl in Hc. apply in_app_or in Hc as [Hc|Hc]; [left; exact Hc|].
    right. rewrite Forall_forall in Hf. apply Hf.
    apply list_elem_of_In. exact Hc.
Qed.

(** C1, as the specification words it, fails: with a verifier that is
    out of order the pass stops the job with [false] as the last
    argument of [stopJob], and makes no call with [true]. *)
Lemma hard_verifier_error_stop_is_not_permanent :
  Verify (verifier brokenVerifierScheduler) singleJob
         [demoExecution "n1" ExecutionStateResultProposed "" 7 (Some "hashA")]
  = ([], [], Some (mkError VerifierError "verifier unavailable"))
  /\ IsErrInsufficientExecutions
       (mkError VerifierError "verifier unavailable") = false
  /\ (stopCalls <$> TransitionJobState 1 brokenVerifierScheduler "job-1"
                      proposedWorld)
     = Some [mkStopJobCall "job-1"
               "failed to verify job job-1: verifier unavailable" false]
  /\ ~ (exists w' c,
          TransitionJobState 1 brokenVerifierScheduler "job-1" proposedWorld
          = Some w'
          /\ In c (stopCalls w') /\ stop_permanent c = true).
Proof.
  split; [reflexivity|]. split; [reflexivity|].
  assert (H : (stopCalls <$> TransitionJobState 1 brokenVerifierScheduler
                               "job-1" proposedWorld)
              = Some [mkStopJobCall "job-1"
                        "failed to verify job job-1: verifier unavailable"
                        false]) by (vm_compute; reflexivity).
  split; [exact H|].
  intros (w' & c & Hw & Hc & Hp). rewrite Hw in H.
  inversion H as [H']. rewrite H' in Hc. destruct Hc as [<-|[]].
  discriminate.
Qed.

Lemma hard_verifier_error_stops_job_witness :
  exists w',
    TransitionJobState 1 brokenVerifierScheduler "job-1" proposedWorld
    = Some w'
    /\ In (mkStopJobCall "job-1"
             (verifyErrMsg singleJob
                (mkError VerifierError "verifier unavailable")) false)
          (stopCalls w')
    /\ (exists js', states w' !! "job-1"%string = Some js'
                    /\ IsTerminal (JS_State js') = true)
    /\ (forall c, In c (stopCalls w') ->
                  In c (stopCalls proposedWorld) \/ stop_permanent c = false).
Proof.
  apply (hard_verifier_error_stops_job 0 brokenVerifierScheduler "job-1"
           proposedWorld
           (mkJobState "job-1"
              [demoExecution "n1" ExecutionStateResultProposed "" 7
                             (Some "hashA")] JobStateInProgress "")
           singleJob [] []
           (mkError VerifierError "verifier unavailable")).
  - vm_compute. reflexivity.
  - reflexivity.
  - vm_compute. reflexivity.
  - reflexivity.
  - vm_compute. discriminate.
  - reflexivity.
  - reflexivity.
Defined.

(** ** Terminal jobs (C2) *)

Lemma transition_terminal fuel s jobID w js :
  states w !! jobID = Some js -> IsTerminal (JS_State js) = true ->
  TransitionJobState (S fuel) s jobID w = Some w.
Proof.
  intros H Ht. unfold TransitionJobState. cbn [transitionJobStateLockFree].
  apply GetJobState_inr in H. rewrite H, Ht. reflexivity.
Qed.

Lemma applyEvent_terminal ev w js :
  states w !! Ev_JobID ev = Some js -> IsTerminal (JS_State js) = true ->
  applyEvent ev w = w.
Proof.
  intros H Ht. unfold applyEvent, UpdateExecutionWith.
  destruct (Ev_Name ev);
    try reflexivity;
    try (apply (updateExecutions_terminal _ _ _ _ H Ht)).
  rewrite H. unfold UpdateJobState. cbn [Req_JobID]. rewrite H, Ht.
  reflexivity.
Qed.

Lemma applyEvent_extends ev w : extends w (applyEvent ev w).
Proof.
  unfold applyEvent.
  destruct (Ev_Name ev);
    try apply extends_refl; try apply UpdateExecutionWith_extends.
  destruct (states w !! Ev_JobID ev) as [js|]; [|apply extends_refl].
  pose proof (UpdateJobState_extends w
    (mkUpdateJobStateRequest (Ev_JobID ev) JobStateCancelled)) as Hu.
  destruct (UpdateJobState _ _) as [[e|] w1]; cbn [snd] in Hu; [exact Hu|].
  eapply extends_trans; [exact Hu|].
  apply extends_fold. intros. apply publish_extends.
Qed.

Lemma runStep_extends fuel s st w w' :
  runStep fuel s st w = Some w' -> extends w w'.
Proof.
  destruct st as [jobID|ev]; cbn [runStep]; intros H.
  - eapply transitionJobStateLockFree_extends, H.
  - eapply extends_trans; [apply applyEvent_extends|].
    eapply transitionJobStateLockFree_extends, H.
Qed.

Lemma runSteps_extends fuel s sts :
  forall w w', runSteps fuel s sts w = Some w' -> extends w w'.
Proof.
  induction sts as [|st sts IH]; intros w w'; cbn [runSteps].
  - intros [= <-]. apply extends_refl.
  - destruct (runStep fuel s st w) as [w1|] eqn:E; [|discriminate].
    intros H. eapply extends_trans; [eapply runStep_extends, E | apply IH, H].
Qed.

Lemma runStep_terminal fuel s st w jobID js :
  states w !! jobID = Some js -> IsTerminal (JS_State js) = true ->
  stepTargets jobID st ->
  runStep (S fuel) s st w = Some w.
Proof.
  intros H Ht Hst. destruct st as [id|ev]; cbn in Hst; subst jobID.
  - eapply transition_terminal; eassumption.
  - cbn [runStep]. unfold OnEvent.
    rewrite (applyEvent_terminal _ _ _ H Ht).
    eapply transition_terminal; eassumption.
Qed.

(** C2.  For a job whose state is terminal, a pass of
    [TransitionJobState] returns and leaves the world, hence the store,
    as it was; so does every inbound event for that job, and so does
    every sequence of passes and events for that job.  Whatever jobs
    later passes and events target, the terminal job state stays as it
    is. *)
Theorem terminal_job_state_is_final fuel s w jobID js :
  states w !! jobID = Some js ->
  IsTerminal (JS_State js) = true ->
  TransitionJobState (S fuel) s jobID w = Some w
  /\ (forall ev, Ev_JobID ev = jobID ->
                 OnEvent (S fuel) s ev w = Some w
                 /\ store (applyEvent ev w) = store w)
  /\ (forall steps, Forall (stepTargets jobID) steps ->
                    runSteps (S fuel) s steps w = Some w)
  /\ (forall fuel' steps w',
        runSteps fuel' s steps w = Some w' -> states w' !! jobID = Some js).
Proof.
  intros H Ht. split; [eapply transition_terminal; eassumption|].
  split; [|split].
  - intros ev Hev. subst jobID. split.
    + apply (runStep_terminal fuel s (StepEvent ev) w _ js H Ht).
      reflexivity.
    + rewrite (applyEvent_terminal _ _ _ H Ht). reflexivity.
  - intros steps Hall. induction Hall as [|st steps Hst _ IH].
    + reflexivity.
    + cbn [runSteps].
      rewrite (runStep_terminal fuel s st w jobID js H Ht Hst). exact IH.
  - intros fuel' steps w' Hrun.
    apply runSteps_extends in Hrun as (_ & _ & Hk & _). apply Hk; assumption.
Qed.

Lemma terminal_job_state_is_final_witness :
  TransitionJobState 1 retryScheduler "job-1" completedWorld
  = Some completedWorld
  /\ OnEvent 1 retryScheduler lateBid completedWorld = Some completedWorld.
Proof.
  pose proof (terminal_job_state_is_final 0 retryScheduler completedWorld
                "job-1"
                (mkJobState "job-1"
                   [demoExecution "n1" ExecutionStateCompleted "" 9
                                  (Some "hashA")]
                   JobStateCompletedSuccessfully "")) as H.
  destruct H as (H1 & H2 & _).
  - vm_compute. reflexivity.
  - reflexivity.
  - split; [exact H1|]. apply (H2 lateBid). reflexivity.
Defined.

(** ** Failed executions (C3) *)

Lemma notifyAskForBid_outbox job nodes :
  forall w,
    outbox (notifyAskForBid job nodes w)
    = outbox w ++ map (fun n => mkEvent EvAskForBid (ID job) "" n 0 "") nodes.
Proof.
  unfold notifyAskForBid.
  induction nodes as [|n nodes IH]; intros w; cbn [fold_left map].
  - rewrite app_nil_r. reflexivity.
  - rewrite IH. cbn [publish outbox]. unfold CreateExecution, updateExecutions.
    rewrite <- app_assoc.
    destruct (states w !! ID job) as [js|]; [|reflexivity].
    destruct (IsTerminal (JS_State js)); reflexivity.
Qed.

Lemma notifyAskForBid_calls job nodes w :
  stopCalls (notifyAskForBid job nodes w) = stopCalls w.
Proof.
  revert w. unfold notifyAskForBid.
  induction nodes as [|n nodes IH]; intros w; cbn [fold_left]; [reflexivity|].
  rewrite IH. cbn [publish stopCalls]. unfold CreateExecution, updateExecutions.
  destruct (states w !! ID job) as [js|]; [|reflexivity].
  destruct (IsTerminal (JS_State js)); reflexivity.
Qed.

Lemma length_pos_nonempty' {A} (l : list A) :
  (0 <? Z.of_nat (length l)) = true <-> l <> [].
Proof.
  destruct l as [|a l]; split; try congruence.
  - intros H. discriminate H.
  - intros _. apply Z.ltb_lt. cbn [length]. lia.
Qed.

(** The message of the stop: the failures are joined in the order of
    the executions, and a failure that is not later than the last one
    taken is passed over. *)
Example failedErrMsg_two_failures :
  failedErrMsg
    (mkJobState "job-1"
       [demoExecution "n1" ExecutionStateFailed "out of memory" 5 None;
        demoExecution "n2" ExecutionStateCompleted "" 6 None;
        demoExecution "n3" ExecutionStateFailed "disk full" 8 None]
       JobStateInProgress "")
  = "node n1 failed due to: out of memory; node n3 failed due to: disk full"%string.
Proof. vm_compute. reflexivity. Qed.

Example failedErrMsg_earlier_failure_skipped :
  failedErrMsg
    (mkJobState "job-1"
       [demoExecution "n1" ExecutionStateFailed "out of memory" 8 None;
        demoExecution "n3" ExecutionStateFailed "disk full" 5 None]
       JobStateInProgress "")
  = "node n1 failed due to: out of memory"%string.
Proof. vm_compute. reflexivity. Qed.

Example failedErrMsg_no_failure :
  failedErrMsg (mkJobState "job-1" [] JobStateInProgress "") = ""%string.
Proof. reflexivity. Qed.

(** C3, as the code has it.  The failed-execution check stops the job,
    with the aggregated failure message and [false], exactly when the
    selection returned an error or it proposed nodes while retrying is
    not permitted; it asks exactly the proposed nodes to bid when there
    is no error, nodes are proposed and retrying is permitted; it does
    nothing when there is no error and no node is proposed. *)
Theorem checkForFailedExecutions_cases s job jobState w nodesToRetry err :
  SelectNodesForRetry (nodeSelector s) job jobState = (nodesToRetry, err) ->
  let canRetry := ShouldRetry (retryStrategy s) (mkRetryRequest (ID job)) in
  (err <> None \/ (nodesToRetry <> [] /\ canRetry = false) ->
   checkForFailedExecutions s job jobState w
   = stopJob (ID job) (failedErrMsg jobState) false w)
  /\ (err = None -> nodesToRetry <> [] -> canRetry = true ->
      checkForFailedExecutions s job jobState w
      = notifyAskForBid job nodesToRetry w
      /\ outbox (checkForFailedExecutions s job jobState w)
         = outbox w
           ++ map (fun n => mkEvent EvAskForBid (ID job) "" n 0 "")
                  nodesToRetry
      /\ stopCalls (checkForFailedExecutions s job jobState w) = stopCalls w)
  /\ (err = None -> nodesToRetry = [] ->
      checkForFailedExecutions s job jobState w = w).
Proof.
  intros Hsel canRetry. unfold checkForFailedExecutions. rewrite Hsel.
  fold canRetry. split; [|split].
  - intros [Herr|[Hn Hc]].
    + destruct err as [e|]; [reflexivity | congruence].
    + apply length_pos_nonempty' in Hn. rewrite Hn, Hc.
      rewrite orb_true_r. reflexivity.
  - intros -> Hn Hc. apply length_pos_nonempty' in Hn. rewrite Hn, Hc.
    cbn [notNil negb andb orb].
    split; [reflexivity|].
    split; [apply notifyAskForBid_outbox | apply notifyAskForBid_calls].
  - intros -> ->. reflexivity.
Qed.

(** C3, as the specification words it, fails: the job is also stopped
    when the selection fails and proposes no node. *)
Lemma selector_error_stops_job_without_nodes :
  SelectNodesForRetry (nodeSelector failingSelectorScheduler) singleJob
    (mkJobState "job-1" [] JobStateInProgress "")
  = ([], Some (mkError SelectorError "no nodes discovered"))
  /\ stopCalls (checkForFailedExecutions failingSelectorScheduler singleJob
                  (mkJobState "job-1" [] JobStateInProgress "") idleWorld)
     = [mkStopJobCall "job-1" "" false]
  /\ jobStateOf "job-1"
       (checkForFailedExecutions failingSelectorScheduler singleJob
          (mkJobState "job-1" [] JobStateInProgress "") idleWorld)
     = Some JobStateFailed
  /\ jobStateOf "job-1" idleWorld = Some JobStateInProgress.
Proof. repeat split; vm_compute; reflexivity. Qed.

Lemma checkForFailedExecutions_cases_witness :
  checkForFailedExecutions exhaustedScheduler pairJob
    (mkJobState "job-1"
       [demoExecution "n1" ExecutionStateFailed "out of memory" 5 None;
        demoExecution "n2" ExecutionStateResultProposed "" 7 (Some "hashA")]
       JobStateInProgress "") failedAndProposedWorld
  = stopJob "job-1" "node n1 failed due to: out of memory" false
            failedAndProposedWorld
  /\ checkForFailedExecutions retryScheduler singleJob
       (mkJobState "job-1"
          [demoExecution "n1" ExecutionStateFailed "out of memory" 5 None]
          JobStateInProgress "") oneFailedWorld
     = notifyAskForBid singleJob ["n2"%string] oneFailedWorld
  /\ checkForFailedExecutions retryScheduler singleJob
       (mkJobState "job-1" [] JobStateInProgress "") idleWorld
     = idleWorld.
Proof.
  split; [|split].
  - apply (checkForFailedExecutions_cases exhaustedScheduler pairJob
             (mkJobState "job-1"
                [demoExecution "n1" ExecutionStateFailed "out of memory" 5 None;
                 demoExecution "n2" ExecutionStateResultProposed "" 7
                               (Some "hashA")]
                JobStateInProgress "")
             failedAndProposedWorld ["n3"%string] None).
    + vm_compute. reflexivity.
    + right. split; [discriminate | reflexivity].
  - apply (checkForFailedExecutions_cases retryScheduler singleJob
             (mkJobState "job-1"
                [demoExecution "n1" ExecutionStateFailed "out of memory" 5 None]
                JobStateInProgress "")
             oneFailedWorld ["n2"%string] None).
    + vm_compute. reflexivity.
    + reflexivity.
    + discriminate.
    + reflexivity.
  - apply (checkForFailedExecutions_cases retryScheduler singleJob
             (mkJobState "job-1" [] JobStateInProgress "")
             idleWorld [] None).
    + vm_compute. reflexivity.
    + reflexivity.
    + reflexivity.
Defined.

(** ** Insufficient executions (C4) *)

(** A pass whose first, second and last checks find nothing to do. *)
Lemma checks_idle s job jobState w :
  SelectNodesForRetry (nodeSelector s) job jobState = ([], None) ->
  SelectBids (nodeSelector s) job jobState = ([], []) ->
  fst (CanCompleteJob (nodeSelector s) job jobState) = false ->
  checkForFailedExecutions s job jobState w = w
  /\ checkForPendingBids s job jobState w = w
  /\ checkForCompletedExecutions s job jobState w = w.
Proof.
  intros H1 H2 H3.
  unfold checkForFailedExecutions, checkForPendingBids,
    checkForCompletedExecutions.
  rewrite H1, H2. destruct (CanCompleteJob _ _ _) as [b st].
  cbn [fst] in H3. subst b. repeat split.
Qed.

(** C4, as the code has it.  When the verifier reports
    [InsufficientExecutions] for the proposed results of a job, the
    pending-results check returns with the world as it found it: it
    calls no [stopJob], changes no job or execution state and does not
    re-enter the pass.  The pass itself returns; it is made of the
    three other checks, and it leaves the world as it was when they
    find nothing to do. *)
Theorem insufficient_executions_waits
    s job jobState succeeded failed e :
  GroupExecutionsByState jobState ExecutionStateResultProposed <> [] ->
  Verify (verifier s) job
         (GroupExecutionsByState jobState ExecutionStateResultProposed)
  = (succeeded, failed, Some e) ->
  IsErrInsufficientExecutions e = true ->
  (forall transition w,
     checkForPendingResults s transition job jobState w = Some w)
  /\ (forall fuel jobID w,
        GetJobState w jobID = inr jobState ->
        IsTerminal (JS_State jobState) = false ->
        GetJob w jobID = inr job ->
        TransitionJobState (S fuel) s jobID w
        = Some (checkForCompletedExecutions s job jobState
                  (checkForPendingBids s job jobState
                     (checkForFailedExecutions s job jobState w)))
        /\ (SelectNodesForRetry (nodeSelector s) job jobState = ([], None) ->
            SelectBids (nodeSelector s) job jobState = ([], []) ->
            fst (CanCompleteJob (nodeSelector s) job jobState) = false ->
            TransitionJobState (S fuel) s jobID w = Some w)).
Proof.
  intros Hne Hv He. split.
  - intros transition w.
    eapply checkForPendingResults_insufficient; eassumption.
  - intros fuel jobID w Hs Ht Hj. unfold TransitionJobState.
    rewrite (transitionJobStateLockFree_unfold _ _ _ _ _ _ Hs Ht Hj).
    rewrite (checkForPendingResults_insufficient _ _ _ _ _ _ _ _ Hv He).
    split; [reflexivity|].
    intros H1 H2 H3.
    destruct (checks_idle s job jobState w H1 H2 H3) as (-> & -> & ->).
    reflexivity.
Qed.

(** C4, as the specification words it, fails: one node has failed,
    another has proposed a result, the verifier wants a second
    proposal, and the pass stops the job all the same, in its
    failed-execution check. *)
Lemma insufficient_executions_pass_can_stop_job :
  snd (Verify (verifier exhaustedScheduler) pairJob
         [demoExecution "n2" ExecutionStateResultProposed "" 7 (Some "hashA")])
  = Some (mkError InsufficientExecutions "insufficient executions")
  /\ jobStateOf "job-1" failedAndProposedWorld = Some JobStateInProgress
  /\ (stopCalls <$> TransitionJobState 1 exhaustedScheduler "job-1"
                      failedAndProposedWorld)
     = Some [mkStopJobCall "job-1" "node n1 failed due to: out of memory"
                           false]
  /\ (jobStateOf "job-1" <$> TransitionJobState 1 exhaustedScheduler "job-1"
                               failedAndProposedWorld)
     = Some (Some JobStateFailed).
Proof. repeat split; vm_compute; reflexivity. Qed.

Lemma insufficient_executions_waits_witness :
  TransitionJobState 1 waitingScheduler "job-1" waitingWorld
  = Some waitingWorld.
Proof.
  pose proof (insufficient_executions_waits waitingScheduler pairJob
                (mkJobState "job-1"
                   [demoExecution "n2" ExecutionStateResultProposed "" 7
                                  (Some "hashA")] JobStateInProgress "")
                [] []
                (mkError InsufficientExecutions "insufficient executions"))
    as H.
  destruct H as (_ & H).
  - vm_compute. discriminate.
  - vm_compute. reflexivity.
  - reflexivity.
  - destruct (H 0%nat "job-1"%string waitingWorld) as (_ & H').
    + vm_compute. reflexivity.
    + reflexivity.
    + vm_compute. reflexivity.
    + apply H'; vm_compute; reflexivity.
Defined.

(** ** Repeating a pass (C5) *)

Lemma transition_unknown fuel s jobID w :
  states w !! jobID = None ->
  TransitionJobState (S fuel) s jobID w = Some w.
Proof.
  intros H. unfold TransitionJobState, GetJobState.
  cbn [transitionJobStateLockFree]. unfold GetJobState. rewrite H.
  reflexivity.
Qed.

Lemma transition_settled fuel s jobID w :
  settled s jobID w -> TransitionJobState (S fuel) s jobID w = Some w.
Proof.
  unfold settled. destruct (states w !! jobID) as [js|] eqn:Hs.
  - intros [Ht|Hq]; [eapply transition_terminal; eassumption|].
    destruct (IsTerminal (JS_State js)) eqn:Ht;
      [eapply transition_terminal; eassumption|].
    unfold TransitionJobState. cbn [transitionJobStateLockFree].
    unfold GetJobState, GetJob. rewrite Hs, Ht.
    destruct (jobs w !! jobID) as [job|]; [|reflexivity].
    destruct Hq as (H1 & H2 & H3 & H4).
    destruct (checks_idle s job js w H1 H2 H4) as (E1 & E2 & E3).
    rewrite E1, E2. unfold checkForPendingResults. rewrite H3.
    change (1 <=? Z.of_nat (length (@nil ExecutionState))) with false.
    cbv iota. rewrite E3. reflexivity.
  - intros _. apply transition_unknown. exact Hs.
Qed.

(** C5, as the code has it.  A pass on a settled job (unknown to the
    store, terminal, or with a quiescent snapshot) returns the world as
    it was.  Hence, when a pass leaves the job settled, invoking
    [TransitionJobState] twice in succession yields the world that
    invoking it once yields. *)
Theorem transition_twice_when_settled fuel s jobID w w1 :
  TransitionJobState fuel s jobID w = Some w1 ->
  settled s jobID w1 ->
  twice (TransitionJobState fuel s jobID) w
  = TransitionJobState fuel s jobID w.
Proof.
  intros H Hs. unfold twice. rewrite H.
  destruct fuel as [|fuel]; [discriminate H|].
  apply transition_settled. exact Hs.
Qed.

(** C5, as the specification words it, fails: after a first pass has
    asked a second node to bid in place of the failed one, a second
    pass asks a third node, and the job has one more execution. *)
Lemma transition_is_not_idempotent :
  (map E_NodeID <$>
     (executionsOf "job-1" <$>
        TransitionJobState 1 retryScheduler "job-1" oneFailedWorld))
  = Some ["n1"; "n2"]%string
  /\ (map E_NodeID <$>
        (executionsOf "job-1" <$>
           twice (TransitionJobState 1 retryScheduler "job-1") oneFailedWorld))
     = Some ["n1"; "n2"; "n3"]%string
  /\ (states <$> twice (TransitionJobState 1 retryScheduler "job-1")
                   oneFailedWorld)
     <> (states <$> TransitionJobState 1 retryScheduler "job-1" oneFailedWorld).
Proof.
  assert (H1 : (executionsOf "job-1" <$>
                  TransitionJobState 1 retryScheduler "job-1" oneFailedWorld)
               = Some [demoExecution "n1" ExecutionStateFailed
                                     "out of memory" 5 None;
                       demoExecution "n2" ExecutionStateAskedToBid "" 0 None])
    by (vm_compute; reflexivity).
  assert (H2 : (executionsOf "job-1" <$>
                  twice (TransitionJobState 1 retryScheduler "job-1")
                        oneFailedWorld)
               = Some [demoExecution "n1" ExecutionStateFailed
                                     "out of memory" 5 None;
                       demoExecution "n2" ExecutionStateAskedToBid "" 0 None;
                       demoExecution "n3" ExecutionStateAskedToBid "" 0 None])
    by (vm_compute; reflexivity).
  split; [rewrite H1; reflexivity|]. split; [rewrite H2; reflexivity|].
  intros Heq.
  destruct (TransitionJobState 1 retryScheduler "job-1" oneFailedWorld)
    as [wa|]; [|discriminate H1].
  destruct (twice (TransitionJobState 1 retryScheduler "job-1") oneFailedWorld)
    as [wb|]; [|discriminate H2].
  cbn in Heq, H1, H2. injection Heq as Heq.
  unfold executionsOf in H1, H2. rewrite Heq in H2. rewrite H2 in H1.
  discriminate H1.
Qed.

Lemma transition_twice_when_settled_witness :
  twice (TransitionJobState 1 exhaustedScheduler "job-1")
        failedAndProposedWorld
  = TransitionJobState 1 exhaustedScheduler "job-1" failedAndProposedWorld.
Proof.
  destruct (TransitionJobState 1 exhaustedScheduler "job-1"
              failedAndProposedWorld) as [w1|] eqn:E.
  - rewrite <- E.
    apply (transition_twice_when_settled 1 exhaustedScheduler "job-1"
             failedAndProposedWorld w1 E).
    assert (Hst : jobStateOf "job-1" <$> Some w1 = Some (Some JobStateFailed)).
    { rewrite <- E. vm_compute. reflexivity. }
    unfold settled. cbn in Hst. unfold jobStateOf in Hst.
    destruct (states w1 !! "job-1"%string) as [js|]; [|exact I].
    left. cbn in Hst. injection Hst as Hst. rewrite Hst. reflexivity.
  - exfalso. vm_compute in E. discriminate E.
Defined.

(** ** Annotations admitted by the job factory (C6) *)

Section FactoryProperties.

Context {APIVersion VerifierKind PublisherSpec Network StorageSpec
         EngineSpec NodeSelectorRequirement float64 : Type}.
Variable IsSafeAnnotation : string -> bool.
Variable RegexString : string.
Variable BuildJobOutputs : list string -> error + list StorageSpec.
Variable ParseNodeSelector : string -> error + list NodeSelectorRequirement.
Variable ValidateWorkingDir : string -> option error.
Variable APIVersion_String : APIVersion -> string.
Variable AsSpec : DockerEngineSpec -> error + EngineSpec.
Variable NewJobWithSaneProductionDefaults :
  error + DockerJob VerifierKind PublisherSpec Network StorageSpec
                    EngineSpec NodeSelectorRequirement float64.

Lemma splitAnnotations_acc annotations :
  forall jobAnnotations unSafeAnnotations,
    fold_left
      (fun '(jobAnnotations, unSafeAnnotations) a =>
         if IsSafeAnnotation a && negb (String.eqb a "")
         then (jobAnnotations ++ [a], unSafeAnnotations)
         else (jobAnnotations, unSafeAnnotations ++ [a]))
      annotations (jobAnnotations, unSafeAnnotations)
    = (jobAnnotations ++ List.filter (admits IsSafeAnnotation) annotations,
       unSafeAnnotations
       ++ List.filter (fun a => negb (admits IsSafeAnnotation a)) annotations).
Proof.
  induction annotations as [|a l IH]; intros ja ua; cbn [fold_left List.filter].
  - rewrite !app_nil_r. reflexivity.
  - cbv beta iota.
    change (IsSafeAnnotation a && negb (String.eqb a ""))
      with (admits IsSafeAnnotation a).
    destruct (admits IsSafeAnnotation a); cbn [negb];
      rewrite IH, <- app_assoc; reflexivity.
Qed.

Lemma splitAnnotations_filter annotations :
  splitAnnotations IsSafeAnnotation annotations
  = (List.filter (admits IsSafeAnnotation) annotations,
     List.filter (fun a => negb (admits IsSafeAnnotation a)) annotations).
Proof. unfold splitAnnotations. apply splitAnnotations_acc. Qed.

(** C6, as the code has it.  Whenever the factory constructs a job,
    its annotations are the annotations of the input that pass
    [IsSafeAnnotation] and are not the empty string, in the order of
    the input; no annotation that fails [IsSafeAnnotation] is among
    them; and when some annotation was set aside, one line that lists
    them all was logged, at error level. *)
Theorem constructed_annotations_are_the_admitted_ones
    a v p cpu memory gpu network domains inputs outputVolumes env entrypoint
    image concurrency confidence minBids timeout annotations nodeSelector
    workingDir admitted :
  let r := ConstructDockerJob APIVersion VerifierKind PublisherSpec Network
             StorageSpec EngineSpec NodeSelectorRequirement float64
             IsSafeAnnotation RegexString BuildJobOutputs ParseNodeSelector
             ValidateWorkingDir APIVersion_String AsSpec
             NewJobWithSaneProductionDefaults
             a v p cpu memory gpu network domains inputs outputVolumes env
             entrypoint image concurrency confidence minBids timeout
             annotations nodeSelector workingDir in
  let stripped :=
    List.filter (fun a => negb (admits IsSafeAnnotation a)) annotations in
  constructedAnnotations _ _ _ _ _ _ _ r = Some admitted ->
  admitted = List.filter (admits IsSafeAnnotation) annotations
  /\ (forall x, In x admitted <->
                In x annotations /\ IsSafeAnnotation x = true
                /\ x <> ""%string)
  /\ (forall x, IsSafeAnnotation x = false -> ~ In x admitted)
  /\ snd r = match stripped with
             | [] => []
             | _ :: _ =>
                 [mkLogEntry LevelError (unsafeLabelsMsg RegexString stripped)]
             end.
Proof.
  intros r stripped Hr.
  assert (Hmem : forall x,
             In x (List.filter (admits IsSafeAnnotation) annotations) <->
             In x annotations /\ IsSafeAnnotation x = true /\ x <> ""%string).
  { intros x. rewrite filter_In. unfold admits.
    rewrite andb_true_iff, negb_true_iff, String.eqb_neq. tauto. }
  assert (H : admitted = List.filter (admits IsSafeAnnotation) annotations
              /\ snd r = match stripped with
                         | [] => []
                         | _ :: _ =>
                             [mkLogEntry LevelError
                                (unsafeLabelsMsg RegexString stripped)]
                         end).
  { subst r. revert Hr. unfold ConstructDockerJob.
    destruct (BuildJobOutputs outputVolumes) as [e|jobOutputs];
      [discriminate|].
    rewrite splitAnnotations_filter. fold stripped.
    destruct (ParseNodeSelector nodeSelector) as [e|reqs]; [discriminate|].
    destruct (if (0 <? String.length workingDir)%nat
              then ValidateWorkingDir workingDir else None) as [e|];
      [discriminate|].
    destruct NewJobWithSaneProductionDefaults as [e|j]; [discriminate|].
    destruct (AsSpec _) as [e|engine]; [discriminate|].
    cbn. intros [= <-]. split; [reflexivity|].
    destruct stripped; reflexivity. }
  destruct H as [Hadm Hlog]. split; [exact Hadm|].
  split; [intros x; rewrite Hadm; apply Hmem|].
  split; [|exact Hlog].
  intros x Hx Hin. rewrite Hadm in Hin. apply Hmem in Hin as (_ & Hs & _).
  congruence.
Qed.

End FactoryProperties.

(** C6, as the specification words it, fails on the empty annotation:
    it fits the regex, as it has no character outside the class, and
    the factory sets it aside all the same. *)
Lemma empty_annotation_is_safe_and_stripped :
  fitsRegex labelChar "" = true
  /\ List.filter (fitsRegex labelChar) ["env-prod"; ""; "bad label!"]%string
     = ["env-prod"; ""]%string
  /\ constructedAnnotations _ _ _ _ _ _ _
       (demoConstructDockerJob ["env-prod"; ""; "bad label!"]%string)
     = Some ["env-prod"%string]
  /\ constructedAnnotations _ _ _ _ _ _ _
       (demoConstructDockerJob ["env-prod"; ""; "bad label!"]%string)
     <> Some (List.filter (fitsRegex labelChar)
                ["env-prod"; ""; "bad label!"]%string).
Proof.
  split; [reflexivity|]. split; [vm_compute; reflexivity|].
  split; [vm_compute; reflexivity|]. vm_compute. discriminate.
Qed.

Lemma constructed_annotations_are_the_admitted_ones_witness :
  ["env-prod"%string]
  = List.filter (admits (fitsRegex labelChar))
      ["env-prod"; ""; "bad label!"]%string
  /\ snd (demoConstructDockerJob ["env-prod"; ""; "bad label!"]%string)
     = [mkLogEntry LevelError
          "The following labels are unsafe. Labels must fit the regex '/A-Za-z0-9._-/' (and all emjois): , bad label!"].
Proof.
  pose proof (constructed_annotations_are_the_admitted_ones
                (fitsRegex labelChar) "A-Za-z0-9._-"
                (fun _ => inr []) (fun _ => inr []) (fun _ => None)
                (fun _ : unit => "V1beta1"%string) (fun _ => inr tt)
                (inr (emptyJob unit unit unit unit unit unit unit))
                tt tt tt "1" "1Gb" "" tt [] [] [] [] ["echo"%string] "ubuntu"
                1 1 1 tt ["env-prod"; ""; "bad label!"]%string "" ""
                ["env-prod"%string]) as H.
  cbv zeta in H. destruct H as (H1 & _ & _ & H4).
  - vm_compute. reflexivity.
  - split; [exact H1|]. exact H4.
Defined.

(** ** Request size cap (C7) *)

Example maxSizeOfString_500 : maxSizeOfString 500 = 337.
Proof. reflexivity. Qed.

(** The table of the test passes against the handler, on a node that
    knows no job. *)
Example TestMaxBodyReader_passes : TestMaxBodyReader (fun _ => false) = true.
Proof. vm_compute. reflexivity. Qed.

(** C7.  With the cap at 500 bytes, a state request whose path is
    longer than 337 bytes is answered 413 with "http: request body too
    large", which is the error the client reports; a request whose path
    has at most 336 bytes is not answered 413: it succeeds or is
    answered "Job not found". *)
Theorem oversize_request_is_rejected known path :
  (337 < Z.of_nat (String.length path) ->
   StatusCode (getStates 500 known path) = 413
   /\ strings_Contains (Body (getStates 500 known path))
                       "http: request body too large" = true
   /\ client_Get 500 known path = Some "http: request body too large"%string)
  /\ (Z.of_nat (String.length path) <= 336 ->
      StatusCode (getStates 500 known path) <> 413
      /\ (StatusCode (getStates 500 known path) = 200
          \/ strings_Contains (Body (getStates 500 known path))
                              "Job not found" = true)).
Proof.
  unfold client_Get, getStates, requestBytes, headerBudget. split.
  - intros H.
    assert (E : (500 <? 163 + Z.of_nat (String.length path)) = true)
      by (apply Z.ltb_lt; lia).
    rewrite E. repeat split.
  - intros H.
    assert (E : (500 <? 163 + Z.of_nat (String.length path)) = false)
      by (apply Z.ltb_ge; lia).
    rewrite E. destruct (known path); cbn [StatusCode Body].
    + split; [discriminate | left; reflexivity].
    + split; [discriminate | right; reflexivity].
Qed.

Lemma oversize_request_is_rejected_witness :
  StatusCode (getStates 500 (fun _ => false) (strings_Repeat "a" 338)) = 413
  /\ StatusCode (getStates 500 (fun _ => false) (strings_Repeat "a" 336))
     <> 413.
Proof.
  destruct (oversize_request_is_rejected (fun _ => false)
              (strings_Repeat "a" 338)) as [H _].
  destruct (oversize_request_is_rejected (fun _ => false)
              (strings_Repeat "a" 336)) as [_ H'].
  split.
  - apply H. vm_compute. reflexivity.
  - apply H'. vm_compute. discriminate.
Defined.

(** A path of exactly 337 bytes is within the cap. *)
Example request_at_the_cap :
  StatusCode (getStates 500 (fun _ => false) (strings_Repeat "a" 337)) = 404.
Proof. vm_compute. reflexivity. Qed.

(** ** Health probe *)

(** What [TestHealthz] asserts is that [All] is positive and exceeds
    [Free]; a volume with no free space meets both assertions. *)
Lemma TestHealthz_asserts_spec healthData :
  TestHealthz_asserts healthData = true
  <-> 0 < int_of_uint64 (All (DiskFreeSpace_ROOT healthData))
      /\ Free (DiskFreeSpace_ROOT healthData)
         < All (DiskFreeSpace_ROOT healthData).
Proof.
  unfold TestHealthz_asserts.
  rewrite andb_true_iff, !Z.ltb_lt. reflexivity.
Qed.

Example TestHealthz_full_volume :
  TestHealthz_asserts (mkHealthInfo (mkMountStatus 1000 1000 0)) = true.
Proof. reflexivity. Qed.

(** ** Defaults of the docker caches (C10) *)

Example ParseDuration_1h : time_ParseDuration "1h" = (Hour, None).
Proof. vm_compute. reflexivity. Qed.

Example ParseDuration_1h30m :
  time_ParseDuration "1h30m" = (5400000000000, None).
Proof. vm_compute. reflexivity. Qed.

Example ParseDuration_fraction :
  time_ParseDuration "1.5s" = (1500000000, None).
Proof. vm_compute. reflexivity. Qed.

Example ParseDuration_negative :
  time_ParseDuration "-30s" = (-30000000000, None).
Proof. vm_compute. reflexivity. Qed.

Example ParseDuration_no_unit : snd (time_ParseDuration "15") <> None.
Proof. vm_compute. discriminate. Qed.

Lemma GetEnvAs_unset {T} (env : gmap string string) key (def : T) convert :
  env !! key = None -> GetEnvAs env key def convert = def.
Proof. intros H. unfold GetEnvAs. rewrite H. reflexivity. Qed.

(** [init] never assigns the package-level [DefaultCacheDuration]. *)
Lemma init_keeps_DefaultCacheDuration env pkg :
  DefaultCacheDuration (init env pkg) = DefaultCacheDuration pkg.
Proof. reflexivity. Qed.

(** C10.  After the package initialiser has run, the exported
    [DefaultCacheDuration] holds the zero duration and not one hour,
    [DefaultTagCacheFrequency] and [DefaultManifestCacheFrequency]
    hold one hour, both caches are built, and each is built with a
    time-to-live of one hour when its duration variable is unset. *)
Theorem init_leaves_DefaultCacheDuration_zero (env : gmap string string) :
  let pkg := init env packageZero in
  DefaultCacheDuration pkg = 0
  /\ DefaultCacheDuration pkg <> Hour
  /\ DefaultTagCacheFrequency pkg = Hour
  /\ DefaultManifestCacheFrequency pkg = Hour
  /\ (env !! tagCacheDurationEnvVar = None ->
      TTL <$> DockerTagCache pkg = Some Hour)
  /\ (env !! manifestCacheDurationEnvVar = None ->
      TTL <$> DockerManifestCache pkg = Some Hour).
Proof.
  cbv zeta. split; [reflexivity|]. split; [discriminate|].
  assert (Hp : fst (time_ParseDuration "1h") = Hour)
    by (vm_compute; reflexivity).
  split; [exact Hp|]. split; [exact Hp|]. split; intros H.
  - unfold init. cbn [DockerTagCache set_DockerManifestCache
                       set_DockerTagCache fmap option_fmap option_map].
    rewrite (GetEnvAs_unset env tagCacheDurationEnvVar _ _ H).
    cbn [NewCache fold_left applyCacheOption TTL]. rewrite Hp. reflexivity.
  - unfold init. cbn [DockerManifestCache set_DockerManifestCache
                       set_DockerTagCache fmap option_fmap option_map].
    rewrite (GetEnvAs_unset env manifestCacheDurationEnvVar _ _ H).
    cbn [NewCache fold_left applyCacheOption TTL]. rewrite Hp. reflexivity.
Qed.

Lemma init_leaves_DefaultCacheDuration_zero_witness :
  DefaultCacheDuration (init ∅ packageZero) = 0
  /\ TTL <$> DockerTagCache (init ∅ packageZero) = Some Hour
  /\ TTL <$> DockerManifestCache (init ∅ packageZero) = Some Hour.
Proof.
  destruct (init_leaves_DefaultCacheDuration_zero ∅)
    as (H1 & _ & _ & _ & H5 & H6).
  split; [exact H1|]. split; [apply H5 | apply H6]; reflexivity.
Defined.

(** The caches as built when no variable is set. *)
Example init_no_environment :
  init ∅ packageZero
  = mkPackage (Some (mkCacheConfig Hour 1000 Hour))
              (Some (mkCacheConfig Hour 1000 Hour)) 0 Hour Hour.
Proof. vm_compute. reflexivity. Qed.

(** A duration variable that is set overrides the default. *)
Example init_with_duration :
  TTL <$> DockerTagCache
            (init {[ tagCacheDurationEnvVar := "30s"%string ]} packageZero)
  = Some (30 * Second).
Proof. vm_compute. reflexivity. Qed.

(** ** Events of the happy path (C9) *)

Lemma string_le_trans a : forall b c,
  string_le a b -> string_le b c -> string_le a c.
Proof.
  unfold string_le, String.leb.
  induction a as [|x a IH]; intros [|y b] [|z c]; cbn [String.compare];
    try congruence.
  unfold Ascii.compare.
  destruct (N.compare_spec (N_of_ascii x) (N_of_ascii y)) as [Exy|Lxy|Gxy];
    [| |discriminate];
  destruct (N.compare_spec (N_of_ascii y) (N_of_ascii z)) as [Eyz|Lyz|Gyz];
    try discriminate;
  destruct (N.compare_spec (N_of_ascii x) (N_of_ascii z)) as [Exz|Lxz|Gxz];
    try lia; try reflexivity; try (intros; reflexivity).
  apply IH.
Qed.

#[local] Instance string_le_transitive : Transitive string_le.
Proof. intros a b c. apply string_le_trans. Qed.

#[local] Instance string_le_antisymm : AntiSymm eq string_le.
Proof. intros a b. apply String.leb_antisym. Qed.

#[local] Instance string_le_total : Total string_le.
Proof. intros a b. apply String.leb_total. Qed.

Lemma sort_Strings_sorted l : StronglySorted string_le (sort_Strings l).
Proof.
  apply Sorted_StronglySorted; [apply _|].
  apply Sorted_merge_sort. apply _.
Qed.

Lemma sort_Strings_perm l : sort_Strings l ≡ₚ l.
Proof. apply merge_sort_Permutation. Qed.

(** Two slices sort to the same slice exactly when they hold the same
    strings, each as many times. *)
Lemma sort_Strings_eq_iff l1 l2 :
  sort_Strings l1 = sort_Strings l2 <-> l1 ≡ₚ l2.
Proof.
  split.
  - intros H. rewrite <- (sort_Strings_perm l1), H. apply sort_Strings_perm.
  - intros H. apply (StronglySorted_unique string_le);
      try apply sort_Strings_sorted.
    rewrite !sort_Strings_perm. exact H.
Qed.

(** Events that satisfy the assertion have four names. *)
Lemma asserted_events_have_four_names
    (JobEventType_String : JobEventType -> string)
    (events : list JobEventType) :
  TestTransportEvents_asserts JobEventType_String events = true ->
  length (sort_Strings (map JobEventType_String events)) = 4%nat.
Proof.
  unfold TestTransportEvents_asserts. rewrite bool_decide_eq_true.
  intros H. rewrite <- H.
  rewrite (Permutation_length (sort_Strings_perm _)). reflexivity.
Qed.




(** * Further properties of the code *)

(** ** The message of a stop for failed executions *)

Lemma last_in {A} (l : list A) d : l <> [] -> In (List.last l d) l.
Proof.
  induction l as [|x l IH]; [congruence|]. intros _.
  destruct l as [|y l]; [left; reflexivity|].
  right. apply IH. discriminate.
Qed.

Lemma last_cons_nonempty {A} (x : A) l d :
  l <> [] -> List.last (x :: l) d = List.last l d.
Proof. destruct l; [congruence | reflexivity]. Qed.

Lemma last_map_nonempty {A B} (f : A -> B) l d d' :
  l <> [] -> List.last (map f l) d' = f (List.last l d).
Proof.
  induction l as [|x l IH]; [congruence|]. intros _.
  destruct l as [|y l]; [reflexivity|].
  cbn [map]. rewrite !last_cons_nonempty by discriminate.
  apply IH. discriminate.
Qed.

Lemma last_default {A} (l : list A) d d' :
  l <> [] -> List.last l d = List.last l d'.
Proof.
  induction l as [|x l IH]; [congruence|]. intros _.
  destruct l as [|y l]; [reflexivity|].
  rewrite !(last_cons_nonempty x) by discriminate. apply IH. discriminate.
Qed.

Lemma failedLoop_spec es :
  forall last errs msg,
    fold_left failedLoopStep es (last, errs, msg)
    = (List.last (reportedFailures (E_UpdateTime last) es) last,
       errs ++ map failureLine (reportedFailures (E_UpdateTime last) es),
       match reportedFailures (E_UpdateTime last) es with
       | [] => msg
       | _ :: _ =>
           multierr_Error
             (errs ++ map failureLine
                        (reportedFailures (E_UpdateTime last) es))
       end).
Proof.
  induction es as [|e es IH]; intros last errs msg;
    cbn [fold_left reportedFailures].
  - rewrite app_nil_r. reflexivity.
  - unfold failedLoopStep at 2.
    destruct (bool_decide (E_State e = ExecutionStateFailed)
              && (E_UpdateTime last <? E_UpdateTime e)) eqn:Hc.
    + rewrite IH. cbn [map]. fold (failureLine e).
      rewrite <- !app_assoc. cbn [app].
      destruct (reportedFailures (E_UpdateTime e) es) as [|r rs] eqn:Hr.
      * reflexivity.
      * rewrite (last_cons_nonempty e) by discriminate.
        rewrite (last_default (r :: rs) e last) by discriminate.
        reflexivity.
    + rewrite IH. reflexivity.
Qed.

Lemma failedReasons_spec jobState :
  failedReasons jobState
  = map failureLine (reportedFailures 0 (JS_Executions jobState)).
Proof. unfold failedReasons. rewrite failedLoop_spec. reflexivity. Qed.

Lemma failedErrMsg_spec jobState :
  failedErrMsg jobState = multierr_Error (failedReasons jobState).
Proof.
  rewrite failedReasons_spec. unfold failedErrMsg.
  rewrite failedLoop_spec. cbn [snd zeroExecution E_UpdateTime app].
  destruct (reportedFailures 0 (JS_Executions jobState)); reflexivity.
Qed.

Lemma reportedFailures_nil t es :
  reportedFailures t es = []
  <-> forall e, In e es -> E_State e = ExecutionStateFailed ->
                E_UpdateTime e <= t.
Proof.
  revert t. induction es as [|e es IH]; intros t; cbn [reportedFailures].
  - split; [intros _ e []|reflexivity].
  - destruct (bool_decide (E_State e = ExecutionStateFailed)
              && (t <? E_UpdateTime e)) eqn:Hc.
    + split; [discriminate|]. intros H. exfalso.
      apply andb_true_iff in Hc as [Hs Ht].
      apply bool_decide_eq_true in Hs. apply Z.ltb_lt in Ht.
      specialize (H e (or_introl eq_refl) Hs). lia.
    + rewrite IH. split.
      * intros H e' [<-|Hin] Hs; [|apply H; assumption].
        apply andb_false_iff in Hc as [Hc|Hc].
        -- apply bool_decide_eq_false in Hc. contradiction.
        -- apply Z.ltb_ge in Hc. exact Hc.
      * intros H e' Hin. apply H. right. exact Hin.
Qed.

Lemma multierr_Error_empty errs :
  (forall x, In x errs -> x <> ""%string) ->
  multierr_Error errs = ""%string <-> errs = [].
Proof.
  intros Hne. unfold multierr_Error.
  destruct errs as [|x errs]; [split; reflexivity|].
  split; [|discriminate]. intros H. exfalso.
  apply (Hne x (or_introl eq_refl)).
  cbn [String.concat] in H. destruct errs as [|y errs]; [exact H|].
  destruct x; [reflexivity | discriminate H].
Qed.

(** The reason passed to [stopJob] by the failed-execution check is
    empty exactly when no execution is [Failed] with an update time
    after Go's zero time. *)
Theorem failedErrMsg_empty_iff jobState :
  failedErrMsg jobState = ""%string
  <-> forall e, In e (JS_Executions jobState) ->
                E_State e = ExecutionStateFailed -> E_UpdateTime e <= 0.
Proof.
  rewrite failedErrMsg_spec, multierr_Error_empty.
  - rewrite failedReasons_spec. rewrite <- reportedFailures_nil.
    split; [apply map_eq_nil | intros ->; reflexivity].
  - intros x Hx. rewrite failedReasons_spec in Hx.
    apply in_map_iff in Hx as (e & <- & _). discriminate.
Qed.

Lemma reportedFailures_sorted t es :
  Sorted.StronglySorted Z.lt (t :: map E_UpdateTime (failedExecutions es)) ->
  reportedFailures t es = failedExecutions es.
Proof.
  revert t. induction es as [|e es IH]; intros t Hs;
    cbn [reportedFailures failedExecutions List.filter]; [reflexivity|].
  fold (failedExecutions es).
  cbn [failedExecutions List.filter] in Hs. fold (failedExecutions es) in Hs.
  destruct (bool_decide (E_State e = ExecutionStateFailed)) eqn:Hf;
    cbn [andb].
  - cbn [map] in Hs. inversion Hs as [|? ? Hs' Hall]; subst.
    inversion Hall as [|? ? Hlt _]; subst.
    apply Z.ltb_lt in Hlt. rewrite Hlt. f_equal. apply IH. exact Hs'.
  - apply IH. exact Hs.
Qed.

(** When the [Failed] executions are recorded in the order of their
    update times (each later than the one before, the first after Go's
    zero time), the reason names every one of them, in that order,
    joined by "; ". *)
Theorem failedErrMsg_in_time_order jobState :
  Sorted.StronglySorted Z.lt
    (0 :: map E_UpdateTime (failedExecutions (JS_Executions jobState))) ->
  failedErrMsg jobState
  = String.concat "; "
      (map failureLine (failedExecutions (JS_Executions jobState))).
Proof.
  intros Hs. rewrite failedErrMsg_spec, failedReasons_spec.
  rewrite (reportedFailures_sorted _ _ Hs). reflexivity.
Qed.

Lemma failedErrMsg_in_time_order_witness :
  failedErrMsg
    (mkJobState "job-1"
       [demoExecution "n1" ExecutionStateFailed "out of memory" 5 None;
        demoExecution "n2" ExecutionStateCompleted "" 6 None;
        demoExecution "n3" ExecutionStateFailed "disk full" 8 None]
       JobStateInProgress "")
  = String.concat "; "
      ["node n1 failed due to: out of memory";
       "node n3 failed due to: disk full"]%string.
Proof.
  apply (failedErrMsg_in_time_order
           (mkJobState "job-1"
              [demoExecution "n1" ExecutionStateFailed "out of memory" 5 None;
               demoExecution "n2" ExecutionStateCompleted "" 6 None;
               demoExecution "n3" ExecutionStateFailed "disk full" 8 None]
              JobStateInProgress "")).
  cbn. repeat constructor; lia.
Defined.

Lemma reportedFailures_are_later t es :
  Forall (fun r => In r es /\ E_State r = ExecutionStateFailed
                   /\ t < E_UpdateTime r) (reportedFailures t es).
Proof.
  revert t. induction es as [|x es IH]; intros t; cbn [reportedFailures];
    [constructor|].
  destruct (bool_decide (E_State x = ExecutionStateFailed)
            && (t <? E_UpdateTime x)) eqn:Hc.
  - apply andb_true_iff in Hc as [Hs Ht].
    apply bool_decide_eq_true in Hs. apply Z.ltb_lt in Ht.
    constructor; [repeat split; [left; reflexivity | exact Hs | exact Ht]|].
    eapply Forall_impl; [apply (IH (E_UpdateTime x))|].
    intros r (Hin & Hf & Hlt). cbn beta. repeat split;
      [right; exact Hin | exact Hf | lia].
  - eapply Forall_impl; [apply (IH t)|].
    intros r (Hin & Hf & Hlt).
    repeat split; [right; exact Hin | exact Hf | exact Hlt].
Qed.

Lemma reportedFailures_last t es d :
  forall e, In e es -> E_State e = ExecutionStateFailed ->
            t < E_UpdateTime e ->
            reportedFailures t es <> []
            /\ E_UpdateTime e
               <= E_UpdateTime (List.last (reportedFailures t es) d).
Proof.
  revert t. induction es as [|x es IH]; intros t e Hin Hf Ht; [destruct Hin|].
  cbn [reportedFailures].
  destruct (bool_decide (E_State x = ExecutionStateFailed)
            && (t <? E_UpdateTime x)) eqn:Hc.
  - split; [discriminate|].
    pose proof (reportedFailures_are_later (E_UpdateTime x) es) as Hall.
    destruct (reportedFailures (E_UpdateTime x) es) as [|y ys] eqn:E.
    + cbn [List.last]. destruct Hin as [->|Hin]; [lia|].
      destruct (Z_lt_le_dec (E_UpdateTime x) (E_UpdateTime e)) as [Hlt|Hle];
        [|exact Hle].
      destruct (IH (E_UpdateTime x) e Hin Hf Hlt) as [Hne _].
      rewrite E in Hne. congruence.
    + rewrite last_cons_nonempty by discriminate.
      assert (Hl : E_UpdateTime x < E_UpdateTime (List.last (y :: ys) d)).
      { rewrite Forall_forall in Hall.
        apply (Hall (List.last (y :: ys) d)).
        apply list_elem_of_In, last_in. discriminate. }
      destruct Hin as [->|Hin]; [lia|].
      destruct (Z_lt_le_dec (E_UpdateTime x) (E_UpdateTime e)) as [Hlt|Hle];
        [|lia].
      destruct (IH (E_UpdateTime x) e Hin Hf Hlt) as [_ Hle].
      rewrite E in Hle. exact Hle.
  - destruct Hin as [->|Hin].
    + exfalso. apply andb_false_iff in Hc as [Hc|Hc].
      * apply bool_decide_eq_false in Hc. contradiction.
      * apply Z.ltb_ge in Hc. lia.
    + apply IH; assumption.
Qed.

(** Whenever some execution is [Failed] with an update time after Go's
    zero time, the last failure the reason names is a [Failed]
    execution of the job that was updated no earlier than any other
    [Failed] one: the latest failure is never left out. *)
Theorem failedErrMsg_ends_with_latest_failure jobState e :
  In e (JS_Executions jobState) ->
  E_State e = ExecutionStateFailed ->
  0 < E_UpdateTime e ->
  failedErrMsg jobState = String.concat "; " (failedReasons jobState)
  /\ exists r,
    List.last (failedReasons jobState) ""%string = failureLine r
    /\ In r (JS_Executions jobState)
    /\ E_State r = ExecutionStateFailed
    /\ (forall e', In e' (JS_Executions jobState) ->
                   E_State e' = ExecutionStateFailed ->
                   E_UpdateTime e' <= E_UpdateTime r).
Proof.
  intros Hin Hf Ht. split; [apply failedErrMsg_spec|].
  destruct (reportedFailures_last 0 (JS_Executions jobState) e e Hin Hf Ht)
    as [Hne _].
  exists (List.last (reportedFailures 0 (JS_Executions jobState)) e).
  pose proof (reportedFailures_are_later 0 (JS_Executions jobState)) as Hall.
  rewrite Forall_forall in Hall.
  destruct (Hall (List.last (reportedFailures 0 (JS_Executions jobState)) e))
    as (Hrin & Hrf & Hrt); [apply list_elem_of_In, last_in; exact Hne|].
  split; [|split; [exact Hrin | split; [exact Hrf|]]].
  - rewrite failedReasons_spec. apply last_map_nonempty. exact Hne.
  - intros e' Hin' Hf'.
    destruct (Z_lt_le_dec 0 (E_UpdateTime e')) as [Hpos|Hle]; [|lia].
    apply (reportedFailures_last 0 _ e e' Hin' Hf' Hpos).
Qed.

Lemma failedErrMsg_ends_with_latest_failure_witness :
  exists r,
    List.last
      (failedReasons
         (mkJobState "job-1"
            [demoExecution "n1" ExecutionStateFailed "out of memory" 8 None;
             demoExecution "n3" ExecutionStateFailed "disk full" 5 None]
            JobStateInProgress "")) ""%string
    = failureLine r
    /\ E_UpdateTime r = 8.
Proof.
  destruct (failedErrMsg_ends_with_latest_failure
              (mkJobState "job-1"
                 [demoExecution "n1" ExecutionStateFailed "out of memory" 8 None;
                  demoExecution "n3" ExecutionStateFailed "disk full" 5 None]
                 JobStateInProgress "")
              (demoExecution "n3" ExecutionStateFailed "disk full" 5 None))
    as (_ & r & Hlast & Hin & Hf & Hmax).
  - right. left. reflexivity.
  - reflexivity.
  - reflexivity.
  - exists r. split; [exact Hlast|].
    pose proof (Hmax (demoExecution "n1" ExecutionStateFailed
                                    "out of memory" 8 None)
                     (or_introl eq_refl) eq_refl) as H8.
    cbn in H8. destruct Hin as [<-|[<-|[]]]; cbn in *; lia.
Defined.

(** ** The bid check and the completion check *)

Lemma updateExecutions_frame jobID f w :
  jobs (updateExecutions jobID f w) = jobs w
  /\ outbox (updateExecutions jobID f w) = outbox w
  /\ stopCalls (updateExecutions jobID f w) = stopCalls w
  /\ jobStatuses (updateExecutions jobID f w) = jobStatuses w.
Proof.
  unfold updateExecutions.
  destruct (states w !! jobID) as [js|] eqn:E; [|repeat split].
  destruct (IsTerminal (JS_State js)); repeat split.
  unfold jobStatuses. cbn [states]. rewrite fmap_insert. cbn [JS_State JS_Status].
  apply insert_id. rewrite lookup_fmap, E. reflexivity.
Qed.

Lemma updateAndNotify_frame st name (r : ExecutionState) w :
  let w' := publish (bidEvent name r)
              (UpdateExecution (E_JobID r) (E_NodeID r) st "" w) in
  jobs w' = jobs w
  /\ outbox w' = outbox w ++ [bidEvent name r]
  /\ stopCalls w' = stopCalls w
  /\ jobStatuses w' = jobStatuses w.
Proof.
  cbv zeta. unfold UpdateExecution, UpdateExecutionWith.
  destruct (updateExecutions_frame (E_JobID r)
              (map (fun e =>
                      if String.eqb (E_NodeID e) (E_NodeID r)
                         && canAdvance (E_State e) st
                      then setExecution st "" e else e)) w)
    as (H1 & H2 & H3 & H4).
  unfold publish, jobStatuses in *. cbn [jobs outbox stopCalls states].
  rewrite H1, H2, H3, H4. repeat split.
Qed.

Lemma fold_updateAndNotify_frame st name (l : list ExecutionState) :
  forall w,
    let w' := fold_left
                (fun w r =>
                   publish (bidEvent name r)
                     (UpdateExecution (E_JobID r) (E_NodeID r) st "" w))
                l w in
    jobs w' = jobs w
    /\ outbox w' = outbox w ++ map (bidEvent name) l
    /\ stopCalls w' = stopCalls w
    /\ jobStatuses w' = jobStatuses w.
Proof.
  induction l as [|r l IH]; intros w; cbn [fold_left map].
  - rewrite app_nil_r. repeat split.
  - destruct (IH (publish (bidEvent name r)
                    (UpdateExecution (E_JobID r) (E_NodeID r) st "" w)))
      as (H1 & H2 & H3 & H4).
    destruct (updateAndNotify_frame st name r w) as (G1 & G2 & G3 & G4).
    cbv zeta in *. rewrite H1, H2, H3, H4, G1, G2, G3, G4.
    rewrite <- app_assoc. repeat split.
Qed.

Lemma checkForPendingBids_frame s job jobState w acceptBids rejectBids :
  SelectBids (nodeSelector s) job jobState = (acceptBids, rejectBids) ->
  let w' := checkForPendingBids s job jobState w in
  outbox w' = outbox w ++ map (bidEvent EvBidAccepted) acceptBids
                       ++ map (bidEvent EvBidRejected) rejectBids
  /\ stopCalls w' = stopCalls w
  /\ jobs w' = jobs w
  /\ jobStatuses w' = jobStatuses w.
Proof.
  intros Hsel. cbv zeta. unfold checkForPendingBids. rewrite Hsel.
  set (w1 := fold_left
               (fun w r =>
                  publish (bidEvent EvBidAccepted r)
                    (UpdateExecution (E_JobID r) (E_NodeID r)
                       ExecutionStateBidAccepted "" w)) acceptBids w).
  change (fold_left (fun w bid => updateAndNotifyBidRejected bid w) rejectBids
            (fold_left (fun w bid => updateAndNotifyBidAccepted bid w)
               acceptBids w))
    with (fold_left
            (fun w r =>
               publish (bidEvent EvBidRejected r)
                 (UpdateExecution (E_JobID r) (E_NodeID r)
                    ExecutionStateBidRejected "" w)) rejectBids w1).
  destruct (fold_updateAndNotify_frame ExecutionStateBidAccepted EvBidAccepted
              acceptBids w) as (A1 & A2 & A3 & A4).
  destruct (fold_updateAndNotify_frame ExecutionStateBidRejected EvBidRejected
              rejectBids w1) as (R1 & R2 & R3 & R4).
  cbv zeta in *. fold w1 in A1, A2, A3, A4.
  rewrite R1, R2, R3, R4, A1, A2, A3, A4, app_assoc. repeat split.
Qed.

(** The bid check publishes one [BidAccepted] for each bid the
    selector accepts and then one [BidRejected] for each bid it
    rejects, in the selector's order, and nothing else; it calls no
    [stopJob], and it leaves the jobs and the state and status of
    every job as they were. *)
Theorem checkForPendingBids_effects s job jobState w acceptBids rejectBids :
  SelectBids (nodeSelector s) job jobState = (acceptBids, rejectBids) ->
  let w' := checkForPendingBids s job jobState w in
  outbox w' = outbox w ++ map (bidEvent EvBidAccepted) acceptBids
                       ++ map (bidEvent EvBidRejected) rejectBids
  /\ stopCalls w' = stopCalls w
  /\ jobs w' = jobs w
  /\ jobStatuses w' = jobStatuses w.
Proof. apply checkForPendingBids_frame. Qed.

Lemma checkForPendingBids_effects_witness :
  outbox (checkForPendingBids retryScheduler singleJob
            (mkJobState "job-1"
               [demoExecution "n1" ExecutionStateBidReceived "" 3 None;
                demoExecution "n2" ExecutionStateBidReceived "" 4 None]
               JobStateInProgress "")
            (worldOf singleJob JobStateInProgress
               [demoExecution "n1" ExecutionStateBidReceived "" 3 None;
                demoExecution "n2" ExecutionStateBidReceived "" 4 None]))
  = [mkEvent EvBidAccepted "job-1" "" "n1" 0 "";
     mkEvent EvBidRejected "job-1" "" "n2" 0 ""].
Proof.
  eapply (checkForPendingBids_effects retryScheduler singleJob
            (mkJobState "job-1"
               [demoExecution "n1" ExecutionStateBidReceived "" 3 None;
                demoExecution "n2" ExecutionStateBidReceived "" 4 None]
               JobStateInProgress "")
            (worldOf singleJob JobStateInProgress
               [demoExecution "n1" ExecutionStateBidReceived "" 3 None;
                demoExecution "n2" ExecutionStateBidReceived "" 4 None])
            [demoExecution "n1" ExecutionStateBidReceived "" 3 None]
            [demoExecution "n2" ExecutionStateBidReceived "" 4 None]).
  vm_compute. reflexivity.
Defined.



(** ** Passes that find no job, and passes that do not re-enter *)

(** A pass on a job of which the store has no state, or no job record,
    returns and leaves the world as it was, whatever else the store
    holds. *)
Theorem transition_missing_job_is_noop fuel s jobID w :
  states w !! jobID = None \/ jobs w !! jobID = None ->
  TransitionJobState (S fuel) s jobID w = Some w.
Proof.
  intros [H|H]; unfold TransitionJobState; cbn [transitionJobStateLockFree];
    unfold GetJobState, GetJob.
  - rewrite H. reflexivity.
  - destruct (states w !! jobID) as [js|]; [|reflexivity].
    destruct (IsTerminal (JS_State js)); [reflexivity|].
    rewrite H. reflexivity.
Qed.

Lemma transition_missing_job_is_noop_witness :
  TransitionJobState 1 retryScheduler "job-2" oneFailedWorld
  = Some oneFailedWorld.
Proof.
  apply (transition_missing_job_is_noop 0 retryScheduler "job-2"
           oneFailedWorld).
  left. vm_compute. reflexivity.
Defined.

Lemma checkForPendingResults_no_reentry s transition transition' job jobState w :
  snd (fst (Verify (verifier s) job
              (GroupExecutionsByState jobState ExecutionStateResultProposed)))
  = [] ->
  checkForPendingResults s transition job jobState w
  = checkForPendingResults s transition' job jobState w
  /\ is_Some (checkForPendingResults s transition job jobState w).
Proof.
  intros Hv. unfold checkForPendingResults.
  destruct (1 <=? _); [|split; [reflexivity | eauto]].
  unfold verifyResult.
  destruct (Verify (verifier s) job _) as [[succeeded failed] [e|]];
    cbn [fst snd] in Hv.
  - destruct (IsErrInsufficientExecutions e); split; eauto.
  - subst failed. cbn [length Z.of_nat]. split; eauto.
Qed.



(** ** The job factory: failures, and annotations passed again *)

Lemma filter_partition_perm {A} (f : A -> bool) (l : list A) :
  Permutation l (List.filter f l ++ List.filter (fun a => negb (f a)) l).
Proof.
  induction l as [|a l IH]; cbn [List.filter]; [constructor|].
  destruct (f a); cbn [negb app].
  - constructor. exact IH.
  - apply Permutation_cons_app. exact IH.
Qed.

Lemma filter_sublist {A} (f : A -> bool) (l : list A) :
  sublist (List.filter f l) l.
Proof.
  induction l as [|a l IH]; cbn [List.filter]; [constructor|].
  destruct (f a); [apply sublist_skip | apply sublist_cons]; exact IH.
Qed.

Lemma filter_length_partition {A} (f : A -> bool) (l : list A) :
  (length (List.filter f l)
   + length (List.filter (fun a => negb (f a)) l))%nat = length l.
Proof.
  induction l as [|a l IH]; cbn [List.filter]; [reflexivity|].
  destruct (f a); cbn [negb length]; lia.
Qed.

Lemma filter_idem {A} (f : A -> bool) (l : list A) :
  List.filter f (List.filter f l) = List.filter f l.
Proof.
  induction l as [|a l IH]; cbn [List.filter]; [reflexivity|].
  destruct (f a) eqn:E; [|exact IH]. cbn [List.filter]. rewrite E, IH.
  reflexivity.
Qed.

Lemma filter_negb_filter {A} (f : A -> bool) (l : list A) :
  List.filter (fun a => negb (f a)) (List.filter f l) = [].
Proof.
  induction l as [|a l IH]; cbn [List.filter]; [reflexivity|].
  destruct (f a) eqn:E; [|exact IH]. cbn [List.filter]. rewrite E. exact IH.
Qed.

(** The loop of the factory over the annotations sorts each of them
    into one of its two lists: both lists keep the order of the input,
    and together they hold the input, each annotation as many times as
    it was given. *)
Theorem splitAnnotations_partitions IsSafeAnnotation annotations :
  let '(jobAnnotations, unSafeAnnotations) :=
    splitAnnotations IsSafeAnnotation annotations in
  Permutation annotations (jobAnnotations ++ unSafeAnnotations)
  /\ sublist jobAnnotations annotations
  /\ sublist unSafeAnnotations annotations
  /\ (length jobAnnotations + length unSafeAnnotations)%nat
     = length annotations
  /\ (forall a, In a jobAnnotations -> ~ In a unSafeAnnotations).
Proof.
  rewrite splitAnnotations_filter.
  split; [apply filter_partition_perm|].
  split; [apply filter_sublist|]. split; [apply filter_sublist|].
  split; [apply filter_length_partition|].
  intros a Ha Hu. apply filter_In in Ha as [_ Ha].
  apply filter_In in Hu as [_ Hu]. rewrite Ha in Hu. discriminate.
Qed.

Section FactoryFailures.

Context {APIVersion VerifierKind PublisherSpec Network StorageSpec
         EngineSpec NodeSelectorRequirement float64 : Type}.
Variable IsSafeAnnotation : string -> bool.
Variable RegexString : string.
Variable BuildJobOutputs : list string -> error + list StorageSpec.
Variable ParseNodeSelector : string -> error + list NodeSelectorRequirement.
Variable ValidateWorkingDir : string -> option error.
Variable APIVersion_String : APIVersion -> string.
Variable AsSpec : DockerEngineSpec -> error + EngineSpec.
Variable NewJobWithSaneProductionDefaults :
  error + DockerJob VerifierKind PublisherSpec Network StorageSpec
                    EngineSpec NodeSelectorRequirement float64.

Variables (a : APIVersion) (v : VerifierKind) (p : PublisherSpec)
          (cpu memory gpu : string) (network : Network)
          (domains : list string) (inputs : list StorageSpec)
          (outputVolumes env entrypoint : list string) (image : string)
          (concurrency confidence minBids : Z) (timeout : float64)
          (nodeSelector workingDir : string).

Let construct (validate : string -> option error) (annotations : list string) :=
  ConstructDockerJob APIVersion VerifierKind PublisherSpec Network
    StorageSpec EngineSpec NodeSelectorRequirement float64
    IsSafeAnnotation RegexString BuildJobOutputs ParseNodeSelector
    validate APIVersion_String AsSpec NewJobWithSaneProductionDefaults
    a v p cpu memory gpu network domains inputs outputVolumes env
    entrypoint image concurrency confidence minBids timeout
    annotations nodeSelector workingDir.

(** Everything the factory checks before it builds the engine. *)
Let prepared (validate : string -> option error) : Prop :=
  (exists outs, BuildJobOutputs outputVolumes = inr outs)
  /\ (exists reqs, ParseNodeSelector nodeSelector = inr reqs)
  /\ (workingDir = ""%string \/ validate workingDir = None)
  /\ (exists j, NewJobWithSaneProductionDefaults = inr j).

Lemma workingDir_engine :
  (if (0 <? String.length workingDir)%nat then workingDir else ""%string)
  = workingDir.
Proof. destruct workingDir; reflexivity. Qed.

Lemma workingDir_check (validate : string -> option error) :
  (if (0 <? String.length workingDir)%nat then validate workingDir else None)
  = None
  <-> workingDir = ""%string \/ validate workingDir = None.
Proof.
  destruct workingDir as [|c rest]; cbn [String.length Nat.ltb Nat.leb].
  - split; [left; reflexivity | reflexivity].
  - split; [intros H; right; exact H | intros [H|H]; [discriminate | exact H]].
Qed.

(** How the factory fails.  It returns no error exactly when its five
    helpers succeed (the working directory is validated only when it
    is not empty).  The job it returns is [nil] exactly when all else
    succeeded and the engine specification could not be built; on
    every other failure it is the empty job, never a job that is
    partly filled in. *)
Theorem ConstructDockerJob_failures annotations :
  let r := construct ValidateWorkingDir annotations in
  let engineSpec :=
    AsSpec (mkDockerEngineSpec image entrypoint env workingDir) in
  (snd (fst r) = None
   <-> prepared ValidateWorkingDir /\ exists engine, engineSpec = inr engine)
  /\ (fst (fst r) = None
      <-> prepared ValidateWorkingDir /\ exists err, engineSpec = inl err)
  /\ (snd (fst r) <> None -> fst (fst r) <> None ->
      fst (fst r) = Some (emptyJob _ _ _ _ _ _ _)).
Proof.
  cbv zeta. unfold construct, prepared, ConstructDockerJob.
  rewrite workingDir_engine.
  destruct (BuildJobOutputs outputVolumes) as [e|outs].
  { cbn. repeat split; try congruence;
      intros [([x Hx] & _) _]; discriminate Hx. }
  destruct (splitAnnotations IsSafeAnnotation annotations) as [ja ua].
  destruct (ParseNodeSelector nodeSelector) as [e|reqs].
  { cbn. repeat split; try congruence;
      intros [(_ & [x Hx] & _) _]; discriminate Hx. }
  pose proof (workingDir_check ValidateWorkingDir) as Hwd.
  destruct (if (0 <? String.length workingDir)%nat
            then ValidateWorkingDir workingDir else None) as [e|].
  { cbn. repeat split; try congruence;
      intros [(_ & _ & Hw & _) _]; apply Hwd in Hw; discriminate Hw. }
  assert (Hw : workingDir = ""%string \/ ValidateWorkingDir workingDir = None)
    by (apply Hwd; reflexivity).
  destruct NewJobWithSaneProductionDefaults as [e|j].
  { cbn. repeat split; try congruence;
      intros [(_ & _ & _ & [x Hx]) _]; discriminate Hx. }
  destruct (AsSpec _) as [e|engine]; cbn.
  - split; [|split].
    + split; [discriminate|]. intros [_ [x Hx]]. discriminate Hx.
    + split; [|reflexivity]. intros _. repeat split; eauto.
    + congruence.
  - split; [|split].
    + split; [|reflexivity]. intros _. repeat split; eauto.
    + split; [discriminate|]. intros [_ [x Hx]]. discriminate Hx.
    + congruence.
Qed.

(** An empty working directory is never validated: the result is the
    same whatever the validation would say. *)
Theorem ConstructDockerJob_empty_workingDir
    (validate validate' : string -> option error) annotations :
  workingDir = ""%string ->
  construct validate annotations = construct validate' annotations.
Proof.
  intros Hw. unfold construct, ConstructDockerJob. rewrite Hw. reflexivity.
Qed.

(** The annotations of a constructed job pass the factory unchanged:
    constructing again with them in place of the input gives a job
    with the same annotations and logs nothing. *)
Theorem ConstructDockerJob_readmits annotations admitted :
  constructedAnnotations _ _ _ _ _ _ _
    (construct ValidateWorkingDir annotations) = Some admitted ->
  constructedAnnotations _ _ _ _ _ _ _
    (construct ValidateWorkingDir admitted) = Some admitted
  /\ snd (construct ValidateWorkingDir admitted) = [].
Proof.
  unfold construct, ConstructDockerJob.
  destruct (BuildJobOutputs outputVolumes) as [e|outs]; [discriminate|].
  rewrite !splitAnnotations_filter.
  destruct (ParseNodeSelector nodeSelector) as [e|reqs]; [discriminate|].
  destruct (if (0 <? String.length workingDir)%nat
            then ValidateWorkingDir workingDir else None) as [e|];
    [discriminate|].
  destruct NewJobWithSaneProductionDefaults as [e|j]; [discriminate|].
  destruct (AsSpec _) as [e|engine]; [discriminate|].
  cbn. intros [= <-]. rewrite filter_idem, filter_negb_filter.
  split; reflexivity.
Qed.

End FactoryFailures.

Lemma ConstructDockerJob_empty_workingDir_witness :
  demoConstructDockerJob ["env-prod"%string]
  = ConstructDockerJob unit unit unit unit unit unit unit unit
      (fitsRegex labelChar) "A-Za-z0-9._-"
      (fun _ => inr []) (fun _ => inr [])
      (fun _ => Some (mkError InvalidJob "not a directory"))
      (fun _ => "V1beta1"%string) (fun _ => inr tt)
      (inr (emptyJob unit unit unit unit unit unit unit))
      tt tt tt "1" "1Gb" "" tt [] [] [] [] ["echo"%string] "ubuntu"
      1 1 1 tt ["env-prod"%string] "" "".
Proof.
  apply (ConstructDockerJob_empty_workingDir
           (fitsRegex labelChar) "A-Za-z0-9._-"
           (fun _ => inr []) (fun _ => inr [])
           (fun _ : unit => "V1beta1"%string) (fun _ => inr tt)
           (inr (emptyJob unit unit unit unit unit unit unit))
           tt tt tt "1" "1Gb" "" tt [] [] [] [] ["echo"%string] "ubuntu"
           1 1 1 tt "" ""
           (fun _ => None)
           (fun _ => Some (mkError InvalidJob "not a directory"))
           ["env-prod"%string]).
  reflexivity.
Defined.

Lemma ConstructDockerJob_readmits_witness :
  constructedAnnotations _ _ _ _ _ _ _
    (demoConstructDockerJob ["env-prod"%string]) = Some ["env-prod"%string]
  /\ snd (demoConstructDockerJob ["env-prod"%string]) = [].
Proof.
  apply (ConstructDockerJob_readmits
           (fitsRegex labelChar) "A-Za-z0-9._-"
           (fun _ => inr []) (fun _ => inr []) (fun _ => None)
           (fun _ : unit => "V1beta1"%string) (fun _ => inr tt)
           (inr (emptyJob unit unit unit unit unit unit unit))
           tt tt tt "1" "1Gb" "" tt [] [] [] [] ["echo"%string] "ubuntu"
           1 1 1 tt "" ""
           ["env-prod"; ""; "bad label!"]%string ["env-prod"%string]).
  vm_compute. reflexivity.
Defined.

(** ** The docker caches and their variables *)

Lemma GetEnvAs_agree {T} (env env' : gmap string string) key (def : T) convert :
  env !! key = env' !! key ->
  GetEnvAs env key def convert = GetEnvAs env' key def convert.
Proof. intros H. unfold GetEnvAs. rewrite H. reflexivity. Qed.



(** ** What the public-API tests accept *)

Lemma maxBodyCasePasses_spec tc err :
  maxBodyCasePasses tc err = true
  <-> exists msg,
        err = Some msg
        /\ (strings_Contains msg "Job not found" = true
            \/ (tc_expectError tc = true
                /\ strings_Contains msg "http: request body too large" = true)).
Proof.
  unfold maxBodyCasePasses. destruct err as [msg|].
  - destruct (strings_Contains msg "Job not found") eqn:Hn; cbn [negb].
    + split; [intros _; exists msg; split; [reflexivity | left; exact Hn]
             | reflexivity].
    + destruct (tc_expectError tc).
      * split.
        -- intros H. exists msg. split; [reflexivity | right; split;
             [reflexivity | exact H]].
        -- intros (m & [= <-] & [H|[_ H]]); [congruence | exact H].
      * split; [discriminate|].
        intros (m & [= <-] & [H|[H _]]); congruence.
  - split; [discriminate | intros (m & H & _); discriminate H].
Qed.

(** [TestMaxBodyReader] passes against a client exactly when the calls
    with 336 and with 337 bytes are answered with an error that
    contains "Job not found", and the call with 338 bytes with an error
    that contains "Job not found" or "http: request body too large".
    A call that returns no error fails the test; and the test passes
    against a server that enforces no cap at all and knows no job. *)
Theorem TestMaxBodyReader_accepts (get : string -> option string) :
  (TestMaxBodyReaderWith get = true
   <-> (exists msg, get (strings_Repeat "a" 336) = Some msg
                    /\ strings_Contains msg "Job not found" = true)
       /\ (exists msg, get (strings_Repeat "a" 337) = Some msg
                       /\ strings_Contains msg "Job not found" = true)
       /\ (exists msg, get (strings_Repeat "a" 338) = Some msg
                       /\ (strings_Contains msg "Job not found" = true
                           \/ strings_Contains msg
                                "http: request body too large" = true)))
  /\ ((forall jobID, get jobID = Some "Job not found"%string) ->
      TestMaxBodyReaderWith get = true).
Proof.
  assert (Hiff :
    TestMaxBodyReaderWith get = true
    <-> (exists msg, get (strings_Repeat "a" 336) = Some msg
                     /\ strings_Contains msg "Job not found" = true)
        /\ (exists msg, get (strings_Repeat "a" 337) = Some msg
                        /\ strings_Contains msg "Job not found" = true)
        /\ (exists msg, get (strings_Repeat "a" 338) = Some msg
                        /\ (strings_Contains msg "Job not found" = true
                            \/ strings_Contains msg
                                 "http: request body too large" = true))).
  { unfold TestMaxBodyReaderWith, testCases, maxSizeOfString.
    cbn [forallb tc_size].
    change (Z.to_nat (500 - 163 - 1)) with 336%nat.
    change (Z.to_nat (500 - 163)) with 337%nat.
    change (Z.to_nat (500 - 163 + 1)) with 338%nat.
    rewrite !andb_true_iff, !maxBodyCasePasses_spec. cbn [tc_expectError].
    split.
    - intros ((m1 & H1 & [G1|[G1 _]]) & (m2 & H2 & [G2|[G2 _]]) & (m3 & H3 & G3) & _);
        try discriminate.
      repeat split; eauto. exists m3. split; [exact H3|].
      destruct G3 as [G3|[_ G3]]; auto.
    - intros ((m1 & H1 & G1) & (m2 & H2 & G2) & (m3 & H3 & G3)).
      repeat split; eauto. exists m3. split; [exact H3|].
      destruct G3 as [G3|G3]; auto. }
  split; [exact Hiff|]. intros Hall. apply Hiff.
  repeat split; eexists; (split; [apply Hall|]); auto.
Qed.

Lemma TestMaxBodyReader_accepts_witness :
  TestMaxBodyReaderWith (fun _ => Some "Job not found"%string) = true.
Proof.
  destruct (TestMaxBodyReader_accepts (fun _ => Some "Job not found"%string))
    as [_ H].
  apply H. intros jobID. reflexivity.
Defined.

(** [TestHealthz] accepts a decoded response, whose sizes are unsigned
    64-bit numbers, exactly when [All] is positive and below 2^63 and
    [Free] is below [All]: a volume of 2^63 bytes or more fails the
    first assertion, and a volume with no free space passes. *)
Theorem TestHealthz_accepts healthData :
  0 <= All (DiskFreeSpace_ROOT healthData) < 2 ^ 64 ->
  (TestHealthz_asserts healthData = true
   <-> 0 < All (DiskFreeSpace_ROOT healthData) < 2 ^ 63
       /\ Free (DiskFreeSpace_ROOT healthData)
          < All (DiskFreeSpace_ROOT healthData)).
Proof.
  intros Hr. unfold TestHealthz_asserts, int_of_uint64.
  rewrite andb_true_iff, !Z.ltb_lt.
  destruct (All (DiskFreeSpace_ROOT healthData) <? 2 ^ 63) eqn:E.
  - apply Z.ltb_lt in E. lia.
  - apply Z.ltb_ge in E. lia.
Qed.

Lemma TestHealthz_accepts_witness :
  TestHealthz_asserts (mkHealthInfo (mkMountStatus (2 ^ 63) 0 5)) = false.
Proof.
  destruct (TestHealthz_asserts (mkHealthInfo (mkMountStatus (2 ^ 63) 0 5)))
    eqn:E; [|reflexivity].
  apply (TestHealthz_accepts (mkHealthInfo (mkMountStatus (2 ^ 63) 0 5)))
    in E; [|cbn; lia].
  cbn in E. lia.
Defined.

(** ** The devstack: waiting for a job, adding a file *)

Lemma occurrences_cons k st states :
  devstack.occurrences k (st :: states)
  = (if String.eqb k st then 1 else 0) + devstack.occurrences k states.
Proof.
  unfold devstack.occurrences. cbn [List.filter].
  destruct (String.eqb k st); cbn [length]; lia.
Qed.

Lemma countStates_spec errorStates states :
  forall foundStates,
    match find (fun st => existsb (String.eqb st) errorStates) states with
    | Some st =>
        devstack.countStates errorStates states foundStates = inl st
    | None =>
        exists found',
          devstack.countStates errorStates states foundStates = inr found'
          /\ forall k, default 0 (found' !! k)
                       = default 0 (foundStates !! k)
                         + devstack.occurrences k states
    end.
Proof.
  induction states as [|st states IH]; intros foundStates;
    cbn [find devstack.countStates].
  - exists foundStates. split; [reflexivity|]. intros k.
    unfold devstack.occurrences. cbn [List.filter length Z.of_nat].
    rewrite Z.add_0_r. reflexivity.
  - destruct (existsb (String.eqb st) errorStates); [reflexivity|].
    set (f1 := match foundStates !! st with
               | Some _ => foundStates
               | None => <[st := 0]> foundStates
               end).
    set (f2 := <[st := default 0 (f1 !! st) + 1]> f1).
    specialize (IH f2).
    destruct (find _ states) as [bad|]; [exact IH|].
    destruct IH as (found' & Hc & Hk). exists found'. split; [exact Hc|].
    intros k. rewrite Hk, occurrences_cons.
    assert (Hf1 : forall k, default 0 (f1 !! k) = default 0 (foundStates !! k)).
    { intros k0. unfold f1.
      destruct (foundStates !! st) as [c|] eqn:E; [reflexivity|].
      destruct (decide (st = k0)) as [<-|Hne].
      - rewrite lookup_insert_eq, E. reflexivity.
      - rewrite lookup_insert_ne by exact Hne. reflexivity. }
    unfold f2. destruct (String.eqb_spec k st) as [->|Hne].
    + rewrite lookup_insert_eq. cbn [from_option id]. rewrite Hf1. lia.
    + rewrite lookup_insert_ne by congruence. rewrite Hf1. lia.
Qed.

Lemma compareStates_spec foundStates expectedStates :
  devstack.compareStates foundStates expectedStates = None
  <-> forall k c, In (k, c) expectedStates -> default 0 (foundStates !! k) = c.
Proof.
  induction expectedStates as [|[k0 c0] rest IH];
    cbn [devstack.compareStates].
  - split; [intros _ k c [] | reflexivity].
  - change (match foundStates !! k0 with Some c => c | None => 0 end)
      with (default 0 (foundStates !! k0)).
    destruct (default 0 (foundStates !! k0) =? c0) eqn:E; cbn [negb].
    + apply Z.eqb_eq in E. rewrite IH. split.
      * intros H k c [[= <- <-]|Hin]; [exact E | apply H, Hin].
      * intros H k c Hin. apply H. right. exact Hin.
    + apply Z.eqb_neq in E. split; [discriminate|].
      intros H. exfalso. apply E. apply H. left. reflexivity.
Qed.

Lemma find_none_iff {A} (f : A -> bool) (l : list A) :
  find f l = None <-> forall x, In x l -> f x = false.
Proof.
  split; [apply find_none|].
  induction l as [|a l IH]; intros H; cbn [find]; [reflexivity|].
  rewrite (H a (or_introl eq_refl)). apply IH. intros x Hx. apply H.
  right. exact Hx.
Qed.

Lemma existsb_eqb_In st errorStates :
  existsb (String.eqb st) errorStates = true <-> In st errorStates.
Proof.
  rewrite existsb_exists. split.
  - intros (x & Hx & He). apply String.eqb_eq in He. congruence.
  - intros H. exists st. split; [exact H | apply String.eqb_refl].
Qed.

Lemma WaitForJob_Handler_succeeds_iff_aux
    listJobs jobId expectedStates errorStates :
  devstack.WaitForJob_Handler listJobs jobId expectedStates errorStates
  = (true, None)
  <-> exists states,
        devstack.GetJobStates listJobs jobId = (states, None)
        /\ (forall st, In st states -> ~ In st errorStates)
        /\ (forall k c, In (k, c) expectedStates ->
                        devstack.occurrences k states = c).
Proof.
  unfold devstack.WaitForJob_Handler.
  destruct (devstack.GetJobStates listJobs jobId) as [states [err|]].
  { split; [discriminate | intros (x & [=] & _)]. }
  pose proof (countStates_spec errorStates states ∅) as Hc.
  destruct (find _ states) as [bad|] eqn:Hfind.
  - rewrite Hc. split; [discriminate|].
    intros (x & [= <-] & Hno & _). exfalso.
    apply find_some in Hfind as [Hin Hbad].
    apply (Hno bad Hin). apply existsb_eqb_In. exact Hbad.
  - destruct Hc as (found' & -> & Hk).
    assert (Hno : forall st, In st states -> ~ In st errorStates).
    { intros st Hin Herr.
      pose proof (proj1 (find_none_iff _ _) Hfind st Hin) as Hf.
      cbn beta in Hf. apply existsb_eqb_In in Herr. congruence. }
    destruct (devstack.compareStates found' expectedStates) as [err|] eqn:Hcmp.
    + split; [discriminate|]. intros (x & [= <-] & _ & Hexp). exfalso.
      assert (Hn : devstack.compareStates found' expectedStates = None).
      { apply compareStates_spec. intros k c Hin.
        rewrite Hk, lookup_empty. cbn [from_option id].
        rewrite (Hexp k c Hin). lia. }
      congruence.
    + split; [|reflexivity]. intros _. exists states.
      split; [reflexivity|]. split; [exact Hno|].
      intros k c Hin.
      pose proof (proj1 (compareStates_spec _ _) Hcmp k c Hin) as Hv.
      rewrite Hk, lookup_empty in Hv. cbn [from_option id] in Hv. lia.
Qed.

(** The handler of [WaitForJob] reports that the wait is over, with no
    error, exactly when the job is listed, none of its states is an
    error state, and every state named in [expectedStates] occurs as
    many times as expected; states that are not named there may occur
    any number of times, and the order in which the entries of
    [expectedStates] are visited does not matter. *)
Theorem WaitForJob_Handler_succeeds_iff
    listJobs jobId expectedStates errorStates :
  devstack.WaitForJob_Handler listJobs jobId expectedStates errorStates
  = (true, None)
  <-> exists states,
        devstack.GetJobStates listJobs jobId = (states, None)
        /\ (forall st, In st states -> ~ In st errorStates)
        /\ (forall k c, In (k, c) expectedStates ->
                        devstack.occurrences k states = c).
Proof. apply WaitForJob_Handler_succeeds_iff_aux. Qed.

(** As soon as one state of the job is an error state, the handler
    reports that the wait is over with the error "job has error state",
    naming the first such state, whatever the counts are; in every
    other case in which it returns an error it reports that the wait
    goes on. *)
Theorem WaitForJob_Handler_error_state
    listJobs jobId expectedStates errorStates states :
  devstack.GetJobStates listJobs jobId = (states, None) ->
  match find (fun st => existsb (String.eqb st) errorStates) states with
  | Some bad =>
      devstack.WaitForJob_Handler listJobs jobId expectedStates errorStates
      = (true, Some ("job has error state: " +:+ bad))
      /\ In bad states /\ In bad errorStates
  | None =>
      fst (devstack.WaitForJob_Handler listJobs jobId expectedStates
             errorStates)
      = bool_decide
          (snd (devstack.WaitForJob_Handler listJobs jobId expectedStates
                  errorStates) = None)
  end.
Proof.
  intros Hg. unfold devstack.WaitForJob_Handler. rewrite Hg.
  pose proof (countStates_spec errorStates states ∅) as Hc.
  destruct (find _ states) as [bad|] eqn:Hfind.
  - rewrite Hc. split; [reflexivity|].
    apply find_some in Hfind as [Hin Hbad]. split; [exact Hin|].
    apply existsb_eqb_In. exact Hbad.
  - destruct Hc as (found' & -> & _).
    destruct (devstack.compareStates found' expectedStates); reflexivity.
Qed.

Lemma WaitForJob_Handler_error_state_witness :
  devstack.WaitForJob_Handler
    (inr [devstack.mkJob "j1"
            [devstack.mkJobState "complete"; devstack.mkJobState "error";
             devstack.mkJobState "complete"]])
    "j1" [("complete"%string, 2)] ["error"%string]
  = (true, Some "job has error state: error"%string).
Proof.
  pose proof (WaitForJob_Handler_error_state
                (inr [devstack.mkJob "j1"
                        [devstack.mkJobState "complete";
                         devstack.mkJobState "error";
                         devstack.mkJobState "complete"]])
                "j1" [("complete"%string, 2)] ["error"%string]
                ["complete"; "error"; "complete"]%string eq_refl) as H.
  cbn [find existsb String.eqb Ascii.eqb Bool.eqb orb] in H.
  apply H.
Defined.

(** [GetJobStates] returns the states of the first listed job with the
    identifier, reports "job not found" when no listed job has it, and
    passes on the error of the listing. *)
Theorem GetJobStates_finds_first jobs jobId :
  ((forall j, In j jobs -> devstack.Id j <> jobId) ->
   devstack.GetJobStates (inr jobs) jobId = ([], Some "job not found"%string))
  /\ (forall before jobData after,
        jobs = before ++ jobData :: after ->
        devstack.Id jobData = jobId ->
        (forall j, In j before -> devstack.Id j <> jobId) ->
        devstack.GetJobStates (inr jobs) jobId
        = (map devstack.State (devstack.Job_State jobData), None))
  /\ (forall err, devstack.GetJobStates (inl err) jobId = ([], Some err)).
Proof.
  split; [|split; [|reflexivity]].
  - intros Hno. unfold devstack.GetJobStates.
    rewrite (proj2 (find_none_iff _ jobs)); [reflexivity|].
    intros j Hin. apply String.eqb_neq. apply Hno. exact Hin.
  - intros before jobData after -> Hid Hno. unfold devstack.GetJobStates.
    induction before as [|j before IH]; cbn [app find].
    + rewrite Hid, String.eqb_refl. reflexivity.
    + rewrite (proj2 (String.eqb_neq _ _) (Hno j (or_introl eq_refl))).
      apply IH. intros j' Hin. apply Hno. right. exact Hin.
Qed.

Lemma GetJobStates_finds_first_witness :
  devstack.GetJobStates
    (inr [devstack.mkJob "j0" [devstack.mkJobState "bidding"];
          devstack.mkJob "j1" [devstack.mkJobState "complete"]]) "j2"
  = ([], Some "job not found"%string)
  /\ devstack.GetJobStates
       (inr [devstack.mkJob "j0" [devstack.mkJobState "bidding"];
             devstack.mkJob "j1" [devstack.mkJobState "complete"]]) "j1"
     = (["complete"%string], None).
Proof.
  split.
  - destruct (GetJobStates_finds_first
                [devstack.mkJob "j0" [devstack.mkJobState "bidding"];
                 devstack.mkJob "j1" [devstack.mkJobState "complete"]] "j2")
      as [H _].
    apply H. intros j [<-|[<-|[]]]; discriminate.
  - destruct (GetJobStates_finds_first
                [devstack.mkJob "j0" [devstack.mkJobState "bidding"];
                 devstack.mkJob "j1" [devstack.mkJobState "complete"]] "j1")
      as (_ & H & _).
    apply (H [devstack.mkJob "j0" [devstack.mkJobState "bidding"]]
             (devstack.mkJob "j1" [devstack.mkJobState "complete"]) []).
    + reflexivity.
    + reflexivity.
    + intros j [<-|[]]. discriminate.
Defined.

(** The handler of [WaitForJobWithConcurrency] reports success exactly
    when the job is listed, none of its states is the error state and
    the complete state occurs [concurrency] times: with a negative
    concurrency it never does. *)
Theorem WaitForJobWithConcurrency_succeeds_iff
    JOB_STATE_ERROR JOB_STATE_COMPLETE listJobs jobId concurrency :
  (devstack.WaitForJobWithConcurrency_Handler JOB_STATE_ERROR
     JOB_STATE_COMPLETE listJobs jobId concurrency = (true, None)
   <-> exists states,
         devstack.GetJobStates listJobs jobId = (states, None)
         /\ ~ In JOB_STATE_ERROR states
         /\ devstack.occurrences JOB_STATE_COMPLETE states = concurrency)
  /\ (concurrency < 0 ->
      devstack.WaitForJobWithConcurrency_Handler JOB_STATE_ERROR
        JOB_STATE_COMPLETE listJobs jobId concurrency <> (true, None)).
Proof.
  assert (Hiff :
    devstack.WaitForJobWithConcurrency_Handler JOB_STATE_ERROR
      JOB_STATE_COMPLETE listJobs jobId concurrency = (true, None)
    <-> exists states,
          devstack.GetJobStates listJobs jobId = (states, None)
          /\ ~ In JOB_STATE_ERROR states
          /\ devstack.occurrences JOB_STATE_COMPLETE states = concurrency).
  { unfold devstack.WaitForJobWithConcurrency_Handler,
      devstack.WaitForJobWithError_Handler.
    rewrite WaitForJob_Handler_succeeds_iff_aux. split.
    - intros (states & Hg & Hno & Hexp). exists states.
      split; [exact Hg|]. split.
      + intros Hin. apply (Hno _ Hin). left. reflexivity.
      + apply Hexp. left. reflexivity.
    - intros (states & Hg & Hno & Hexp). exists states.
      split; [exact Hg|]. split.
      + intros st Hin [<-|[]]. contradiction.
      + intros k c [[= <- <-]|[]]. exact Hexp. }
  split; [exact Hiff|]. intros Hneg H. apply Hiff in H as (states & _ & _ & Hc).
  unfold devstack.occurrences in Hc. lia.
Qed.

Lemma WaitForJobWithConcurrency_succeeds_iff_witness :
  devstack.WaitForJobWithConcurrency_Handler "error" "complete"
    (inr [devstack.mkJob "j1"
            [devstack.mkJobState "complete"; devstack.mkJobState "complete"]])
    "j1" (-1)
  <> (true, None).
Proof.
  destruct (WaitForJobWithConcurrency_succeeds_iff "error" "complete"
              (inr [devstack.mkJob "j1"
                      [devstack.mkJobState "complete";
                       devstack.mkJobState "complete"]])
              "j1" (-1)) as [_ H].
  apply H. lia.
Defined.

Lemma AddFileToNodes_from_skips TrimSpace nodeCount filePath nodes :
  forall i returnFileCid ran,
    nodeCount <= Z.of_nat i ->
    devstack.AddFileToNodes_from TrimSpace nodeCount filePath i nodes
      returnFileCid ran
    = (returnFileCid, None, ran).
Proof.
  induction nodes as [|node nodes IH]; intros i c ran Hi;
    cbn [devstack.AddFileToNodes_from]; [reflexivity|].
  rewrite (proj2 (Z.leb_le _ _) Hi). apply IH. lia.
Qed.

Lemma AddFileToNodes_from_take TrimSpace nodeCount filePath nodes :
  forall i returnFileCid ran,
    devstack.AddFileToNodes_from TrimSpace nodeCount filePath i nodes
      returnFileCid ran
    = devstack.AddFileToNodes_from TrimSpace nodeCount filePath i
        (take (Z.to_nat nodeCount - i) nodes) returnFileCid ran.
Proof.
  induction nodes as [|node nodes IH]; intros i c ran.
  - rewrite take_nil. reflexivity.
  - destruct (Z_le_gt_dec nodeCount (Z.of_nat i)) as [Hle|Hgt].
    + rewrite !AddFileToNodes_from_skips by exact Hle. reflexivity.
    + replace (Z.to_nat nodeCount - i)%nat
        with (S (Z.to_nat nodeCount - S i))%nat by lia.
      cbn [take devstack.AddFileToNodes_from].
      destruct (nodeCount <=? Z.of_nat i); [apply IH|].
      destruct (devstack.HostId node); [reflexivity|].
      destruct (devstack.IpfsCli_Run node _); [reflexivity|]. apply IH.
Qed.

Lemma AddFileToNodes_from_success TrimSpace nodeCount filePath nodes :
  forall outs i returnFileCid ran,
    (nodes <> [] -> Z.of_nat i + Z.of_nat (length nodes) <= nodeCount) ->
    Forall2 (fun node out =>
               (exists nodeId, devstack.HostId node = inr nodeId)
               /\ devstack.IpfsCli_Run node ["add"; "-Q"; filePath]%string
                  = inr out) nodes outs ->
    devstack.AddFileToNodes_from TrimSpace nodeCount filePath i nodes
      returnFileCid ran
    = (List.last (map TrimSpace outs) returnFileCid, None,
       ran ++ seq i (length nodes)).
Proof.
  induction nodes as [|node nodes IH]; intros outs i c ran Hlen Hall.
  - inversion Hall; subst. cbn. rewrite app_nil_r. reflexivity.
  - inversion Hall as [|? out ? outs' [[nodeId Hh] Hr] Hall']; subst.
    specialize (Hlen ltac:(discriminate)).
    cbn [devstack.AddFileToNodes_from length] in *.
    rewrite (proj2 (Z.leb_gt _ _)) by lia. rewrite Hh, Hr.
    rewrite (IH outs' (S i) (TrimSpace out) (ran ++ [i]));
      [|intros _; lia|exact Hall'].
    cbn [map seq]. rewrite <- app_assoc. cbn [app]. f_equal. f_equal.
    destruct outs' as [|o outs']; [reflexivity|].
    cbn [map]. rewrite (last_cons_nonempty (TrimSpace out)) by discriminate.
    apply last_default. discriminate.
Qed.

(** [AddFileToNodes] adds the file to the first [nodeCount] nodes of
    the stack and to no other: the nodes after them are never asked,
    so the result is the one the stack cut after [nodeCount] nodes
    gives; with a count of zero or less no node is asked and the
    content identifier returned is empty, with no error. *)
Theorem AddFileToNodes_asks_first_nodes_only
    (TrimSpace : string -> string) nodes nodeCount filePath :
  devstack.AddFileToNodes TrimSpace nodes nodeCount filePath
  = devstack.AddFileToNodes TrimSpace (take (Z.to_nat nodeCount) nodes)
      nodeCount filePath
  /\ Forall (fun i => Z.of_nat i < nodeCount /\ (i < length nodes)%nat)
            (snd (devstack.AddFileToNodes TrimSpace nodes nodeCount filePath))
  /\ (nodeCount <= 0 ->
      devstack.AddFileToNodes TrimSpace nodes nodeCount filePath
      = (""%string, None, [])).
Proof.
  unfold devstack.AddFileToNodes. split; [|split].
  - rewrite AddFileToNodes_from_take at 1. rewrite Nat.sub_0_r. reflexivity.
  - assert (H : forall nodes i c ran,
               Forall (fun j => Z.of_nat j < nodeCount
                                /\ (j < i + length nodes)%nat) ran ->
               Forall (fun j => Z.of_nat j < nodeCount
                                /\ (j < i + length nodes)%nat)
                 (snd (devstack.AddFileToNodes_from TrimSpace nodeCount
                         filePath i nodes c ran))).
    { clear nodes. induction nodes as [|node nodes IH]; intros i c ran Hran;
        cbn [devstack.AddFileToNodes_from]; [exact Hran|].
      assert (Hran' : Forall (fun j => Z.of_nat j < nodeCount
                                       /\ (j < S i + length nodes)%nat) ran).
      { eapply Forall_impl; [exact Hran|]. cbn [length]. intros j. lia. }
      assert (Hstep : forall r,
                 Forall (fun j => Z.of_nat j < nodeCount
                                  /\ (j < S i + length nodes)%nat) r ->
                 Forall (fun j => Z.of_nat j < nodeCount
                                  /\ (j < i + length (node :: nodes))%nat) r).
      { intros r Hr. eapply Forall_impl; [exact Hr|]. cbn [length].
        intros j. lia. }
      destruct (nodeCount <=? Z.of_nat i) eqn:E.
      - apply Hstep, IH, Hran'.
      - apply Z.leb_gt in E.
        destruct (devstack.HostId node); [exact Hran|].
        assert (Hi : Forall (fun j => Z.of_nat j < nodeCount
                                      /\ (j < S i + length nodes)%nat)
                            (ran ++ [i])).
        { apply Forall_app. split; [exact Hran'|].
          constructor; [lia | constructor]. }
        destruct (devstack.IpfsCli_Run node _);
          [apply Hstep, Hi | apply Hstep, IH, Hi]. }
    apply (H nodes 0%nat ""%string []). constructor.
  - intros Hle. apply AddFileToNodes_from_skips. lia.
Qed.

Lemma AddFileToNodes_asks_first_nodes_only_witness :
  devstack.AddFileToNodes (fun s => s)
    [devstack.mkDevStackNode (inr "node0"%string) (fun _ => inr "cid0"%string);
     devstack.mkDevStackNode (inl "unreachable"%string)
                             (fun _ => inl "unreachable"%string)]
    0 "/tmp/file"
  = (""%string, None, []).
Proof.
  destruct (AddFileToNodes_asks_first_nodes_only (fun s => s)
              [devstack.mkDevStackNode (inr "node0"%string)
                                       (fun _ => inr "cid0"%string);
               devstack.mkDevStackNode (inl "unreachable"%string)
                                       (fun _ => inl "unreachable"%string)]
              0 "/tmp/file") as (_ & _ & H).
  apply H. lia.
Defined.

(** When the first [nodeCount] nodes of the stack all answer, the file
    is added to each of them in turn and the content identifier
    returned is the trimmed answer of the last of them. *)
Theorem AddFileToNodes_returns_last_cid
    (TrimSpace : string -> string) nodes nodeCount filePath outs :
  Forall2 (fun node out =>
             (exists nodeId, devstack.HostId node = inr nodeId)
             /\ devstack.IpfsCli_Run node ["add"; "-Q"; filePath]%string
                = inr out)
          (take (Z.to_nat nodeCount) nodes) outs ->
  devstack.AddFileToNodes TrimSpace nodes nodeCount filePath
  = (List.last (map TrimSpace outs) ""%string, None, seq 0 (length outs)).
Proof.
  intros Hall. unfold devstack.AddFileToNodes.
  rewrite AddFileToNodes_from_take, Nat.sub_0_r.
  rewrite (AddFileToNodes_from_success TrimSpace nodeCount filePath
             (take (Z.to_nat nodeCount) nodes) outs 0 "" []).
  - rewrite (Forall2_length _ _ _ Hall). reflexivity.
  - intros Hne. rewrite length_take.
    destruct (Z_le_gt_dec nodeCount 0) as [Hle|Hgt]; [|lia].
    exfalso. apply Hne. replace (Z.to_nat nodeCount) with 0%nat by lia.
    reflexivity.
  - exact Hall.
Qed.

Lemma AddFileToNodes_returns_last_cid_witness :
  devstack.AddFileToNodes (fun s => s)
    [devstack.mkDevStackNode (inr "node0"%string) (fun _ => inr "cid0"%string);
     devstack.mkDevStackNode (inr "node1"%string) (fun _ => inr "cid1"%string);
     devstack.mkDevStackNode (inl "unreachable"%string)
                             (fun _ => inl "unreachable"%string)]
    2 "/tmp/file"
  = ("cid1"%string, None, [0; 1]%nat).
Proof.
  apply (AddFileToNodes_returns_last_cid (fun s => s)
           [devstack.mkDevStackNode (inr "node0"%string)
                                    (fun _ => inr "cid0"%string);
            devstack.mkDevStackNode (inr "node1"%string)
                                    (fun _ => inr "cid1"%string);
            devstack.mkDevStackNode (inl "unreachable"%string)
                                    (fun _ => inl "unreachable"%string)]
           2 "/tmp/file" ["cid0"; "cid1"]%string).
  repeat constructor; eexists; reflexivity.
Defined.

(** ** The WASM log manager *)

Lemma wrap64_add a b : wasmlogs.wrap64 (wasmlogs.wrap64 a + b)
                       = wasmlogs.wrap64 (a + b).
Proof.
  unfold wasmlogs.wrap64. f_equal.
  replace ((a + 2 ^ 63) mod 2 ^ 64 - 2 ^ 63 + b + 2 ^ 63)
    with ((a + 2 ^ 63) mod 2 ^ 64 + b) by lia.
  rewrite Z.add_mod_idemp_l by lia. f_equal. lia.
Qed.

Lemma wrap64_small a : - 2 ^ 63 <= a < 2 ^ 63 -> wasmlogs.wrap64 a = a.
Proof.
  intros H. unfold wasmlogs.wrap64. rewrite Z.mod_small by lia. lia.
Qed.

Lemma wrap64_range a : - 2 ^ 63 <= wasmlogs.wrap64 a < 2 ^ 63.
Proof.
  unfold wasmlogs.wrap64.
  pose proof (Z.mod_pos_bound (a + 2 ^ 63) (2 ^ 64) ltac:(lia)). lia.
Qed.

Lemma processItem_accounting Marshal Compact Write msg buf lm :
  wasmlogs.broadcasted (wasmlogs.processItem Marshal Compact Write
                          (Some msg) buf lm)
  = wasmlogs.broadcasted lm ++ [msg]
  /\ wasmlogs.lifetimeBytes (wasmlogs.processItem Marshal Compact Write
                               (Some msg) buf lm)
     = wasmlogs.wrap64 (wasmlogs.lifetimeBytes lm
                        + Z.of_nat (length (wasmlogs.Data msg))).
Proof.
  unfold wasmlogs.processItem, wasmlogs.addLog.
  destruct (Marshal msg) as [e|data]; [split; reflexivity|].
  destruct (Compact data) as [e|compact]; [split; reflexivity|].
  destruct (Write _ _) as [wrote [e|]]; [split; reflexivity|].
  destruct (wrote =? 0); split; reflexivity.
Qed.

(** Whatever becomes of the encoding and of the write to the log file,
    every message drained from the ring buffer is handed to the
    broadcaster, once and in order, and [lifetimeBytes] grows by the
    length of its data, as a 64-bit signed number; the sentinels
    ([nil]) among the items change nothing. *)
Theorem drainItems_accounting Marshal Compact Write extra lm :
  - 2 ^ 63 <= wasmlogs.lifetimeBytes lm < 2 ^ 63 ->
  let lm' := wasmlogs.drainItems Marshal Compact Write extra lm in
  wasmlogs.broadcasted lm'
  = wasmlogs.broadcasted lm ++ wasmlogs.messages extra
  /\ wasmlogs.lifetimeBytes lm'
     = wasmlogs.wrap64 (wasmlogs.lifetimeBytes lm
                        + wasmlogs.dataBytes (wasmlogs.messages extra))
  /\ (0 <= wasmlogs.lifetimeBytes lm ->
      wasmlogs.lifetimeBytes lm
      + wasmlogs.dataBytes (wasmlogs.messages extra) < 2 ^ 63 ->
      wasmlogs.lifetimeBytes lm'
      = wasmlogs.lifetimeBytes lm
        + wasmlogs.dataBytes (wasmlogs.messages extra)).
Proof.
  intros Hr. cbv zeta.
  assert (H : forall extra lm,
             - 2 ^ 63 <= wasmlogs.lifetimeBytes lm < 2 ^ 63 ->
             wasmlogs.broadcasted
               (wasmlogs.drainItems Marshal Compact Write extra lm)
             = wasmlogs.broadcasted lm ++ wasmlogs.messages extra
             /\ wasmlogs.lifetimeBytes
                  (wasmlogs.drainItems Marshal Compact Write extra lm)
                = wasmlogs.wrap64
                    (wasmlogs.lifetimeBytes lm
                     + wasmlogs.dataBytes (wasmlogs.messages extra))).
  { clear. induction extra as [|[msg|] extra IH]; intros lm Hr;
      unfold wasmlogs.drainItems, wasmlogs.messages in *;
      cbn [fold_left omap id option_bind mbind wasmlogs.dataBytes fold_right].
    - rewrite app_nil_r, Z.add_0_r, wrap64_small by exact Hr.
      split; reflexivity.
    - destruct (processItem_accounting Marshal Compact Write msg [] lm)
        as [Hb Hl].
      destruct (IH (wasmlogs.processItem Marshal Compact Write (Some msg)
                      [] lm)) as (IHb & IHl).
      { rewrite Hl. apply wrap64_range. }
      rewrite IHb, Hb, IHl, Hl, <- app_assoc, wrap64_add.
      split; [reflexivity|]. f_equal.
      change (list_omap _ _ id (Some msg :: extra)) with (msg :: omap id extra).
      unfold wasmlogs.dataBytes. cbn [foldr fold_right]. lia.
    - change (wasmlogs.processItem Marshal Compact Write None [] lm) with lm.
      apply IH. exact Hr. }
  destruct (H extra lm Hr) as (Hb & Hlife).
  split; [exact Hb|]. split; [exact Hlife|].
  intros Hpos Hsum. rewrite Hlife. apply wrap64_small.
  assert (0 <= wasmlogs.dataBytes (wasmlogs.messages extra)).
  { generalize (wasmlogs.messages extra). intros l.
    induction l as [|m l IHl];
      cbn [wasmlogs.dataBytes fold_right]; [lia|].
    fold (wasmlogs.dataBytes l). lia. }
  lia.
Qed.

Lemma drainItems_accounting_witness :
  wasmlogs.lifetimeBytes
    (wasmlogs.drainItems (fun _ => inl "no encoder"%string)
       (fun b => inr b) (fun _ _ => (0, Some "disk full"%string))
       [Some (wasmlogs.mkLogMessage 1 "stdout" [Byte.x68; Byte.x69]); None;
        Some (wasmlogs.mkLogMessage 2 "stderr" [Byte.x21])]
       (wasmlogs.mkLogManager [] [] 0 []))
  = 3.
Proof.
  destruct (drainItems_accounting (fun _ => inl "no encoder"%string)
              (fun b => inr b) (fun _ _ => (0, Some "disk full"%string))
              [Some (wasmlogs.mkLogMessage 1 "stdout" [Byte.x68; Byte.x69]);
               None;
               Some (wasmlogs.mkLogMessage 2 "stderr" [Byte.x21])]
              (wasmlogs.mkLogManager [] [] 0 [])) as (_ & _ & H).
  - cbn. lia.
  - apply H; cbn; lia.
Defined.

(** When every message encodes and every write is complete, the log
    file grows by one line for each message drained, in order: the
    compacted encoding of the message followed by a newline; and
    nothing is logged. *)
Theorem drainItems_writes_one_line_each
    Marshal Compact Write (line : wasmlogs.LogMessage -> list Byte.byte)
    extra lm :
  (forall msg, In (Some msg) extra ->
               exists data, Marshal msg = inr data
                            /\ Compact data = inr (line msg)) ->
  (forall f bytes, Write f bytes = (Z.of_nat (length bytes), None)) ->
  let lm' := wasmlogs.drainItems Marshal Compact Write extra lm in
  wasmlogs.file lm'
  = wasmlogs.file lm
    ++ concat (map (fun msg => line msg ++ [Byte.x0a])
                   (wasmlogs.messages extra))
  /\ wasmlogs.logged lm' = wasmlogs.logged lm.
Proof.
  intros Henc Hwrite. cbv zeta. revert lm Henc.
  induction extra as [|[msg|] extra IH]; intros lm Henc;
    unfold wasmlogs.drainItems, wasmlogs.messages in *;
    cbn [fold_left omap id option_bind mbind map concat].
  - rewrite app_nil_r. split; reflexivity.
  - destruct (Henc msg (or_introl eq_refl)) as (data & Hm & Hc).
    assert (Hstep :
      wasmlogs.processItem Marshal Compact Write (Some msg) [] lm
      = wasmlogs.mkLogManager
          (wasmlogs.broadcasted lm ++ [msg])
          (wasmlogs.file lm ++ line msg ++ [Byte.x0a])
          (wasmlogs.wrap64 (wasmlogs.lifetimeBytes lm
                            + Z.of_nat (length (wasmlogs.Data msg))))
          (wasmlogs.logged lm)).
    { unfold wasmlogs.processItem. rewrite Hm, Hc, Hwrite.
      cbn [app wasmlogs.broadcasted wasmlogs.file wasmlogs.lifetimeBytes
           wasmlogs.logged].
      rewrite Nat2Z.id, firstn_all.
      destruct (Z.of_nat (length (line msg ++ [Byte.x0a])) =? 0) eqn:E;
        [|reflexivity].
      apply Z.eqb_eq in E. rewrite length_app in E. cbn [length] in E. lia. }
    rewrite Hstep.
    destruct (IH (wasmlogs.mkLogManager
                    (wasmlogs.broadcasted lm ++ [msg])
                    (wasmlogs.file lm ++ line msg ++ [Byte.x0a])
                    (wasmlogs.wrap64 (wasmlogs.lifetimeBytes lm
                                      + Z.of_nat (length (wasmlogs.Data msg))))
                    (wasmlogs.logged lm))) as [Hf Hl].
    { intros m Hin. apply Henc. right. exact Hin. }
    rewrite Hf, Hl. cbn [wasmlogs.file wasmlogs.logged].
    change (list_omap _ _ id (Some msg :: extra)) with (msg :: omap id extra).
    cbn [map concat]. rewrite <- !app_assoc. split; reflexivity.
  - apply IH. intros m Hin. apply Henc. right. exact Hin.
Qed.

Lemma drainItems_writes_one_line_each_witness :
  wasmlogs.file
    (wasmlogs.drainItems (fun m => inr (wasmlogs.Data m)) (fun b => inr b)
       (fun _ b => (Z.of_nat (length b), None))
       [Some (wasmlogs.mkLogMessage 1 "stdout" [Byte.x68; Byte.x69]); None;
        Some (wasmlogs.mkLogMessage 2 "stderr" [Byte.x21])]
       (wasmlogs.mkLogManager [] [] 0 []))
  = [Byte.x68; Byte.x69; Byte.x0a; Byte.x21; Byte.x0a].
Proof.
  apply (drainItems_writes_one_line_each
           (fun m => inr (wasmlogs.Data m)) (fun b => inr b)
           (fun _ b => (Z.of_nat (length b), None)) wasmlogs.Data
           [Some (wasmlogs.mkLogMessage 1 "stdout" [Byte.x68; Byte.x69]); None;
            Some (wasmlogs.mkLogMessage 2 "stderr" [Byte.x21])]
           (wasmlogs.mkLogManager [] [] 0 [])).
  - intros msg _. eexists. split; reflexivity.
  - intros f bytes. reflexivity.
Defined.

(** ** The submissions of the get test *)

Lemma iter_submissions (newID : nat -> string)
    (g : nat * string -> nat * string) (m : nat) :
  (forall c id, g (c, id)
                = ((c + m)%nat, if (m =? 0)%nat then id
                                else newID (c + m - 1)%nat)) ->
  forall k c id,
    Nat.iter k g (c, id)
    = ((c + k * m)%nat, if (k * m =? 0)%nat then id
                        else newID (c + k * m - 1)%nat).
Proof.
  intros Hg. induction k as [|k IH]; intros c id.
  - cbn. rewrite Nat.add_0_r. reflexivity.
  - rewrite Nat.iter_succ, IH, Hg. f_equal; [lia|].
    destruct m as [|m].
    + rewrite !Nat.mul_0_r. reflexivity.
    + cbn [Nat.eqb]. destruct (S k * S m =? 0)%nat eqn:E;
        [apply Nat.eqb_eq in E; lia|]. f_equal. lia.
Qed.

(** One case of [TestGetJob] submits the square of
    [NumberOfNodes * numOfJobs] jobs, as the four loops are nested: 9
    jobs for the case of one job and 3969 for the case of 21, on three
    nodes; the identifier kept is that of the last job submitted. *)
Theorem TestGetJob_submits_square (newID : nat -> string)
    NumberOfNodes numOfJobs submitted submittedJobID :
  let total :=
    ((Z.to_nat NumberOfNodes * Z.to_nat numOfJobs)
     * (Z.to_nat NumberOfNodes * Z.to_nat numOfJobs))%nat in
  TestGetJob_submit newID NumberOfNodes numOfJobs (submitted, submittedJobID)
  = ((submitted + total)%nat,
     if (total =? 0)%nat then submittedJobID
     else newID (submitted + total - 1)%nat)
  /\ fst (TestGetJob_submit newID 3 1 (0%nat, ""%string)) = 9%nat
  /\ fst (TestGetJob_submit newID 3 21 (0%nat, ""%string)) = 3969%nat.
Proof.
  assert (H : forall N n c id,
             TestGetJob_submit newID N n (c, id)
             = ((c + (Z.to_nat N * Z.to_nat n) * (Z.to_nat N * Z.to_nat n))%nat,
                if ((Z.to_nat N * Z.to_nat n) * (Z.to_nat N * Z.to_nat n)
                    =? 0)%nat then id
                else newID (c + (Z.to_nat N * Z.to_nat n)
                                * (Z.to_nat N * Z.to_nat n) - 1)%nat)).
  { intros N n c id. unfold TestGetJob_submit, times.
    set (submit := fun '(submitted, submittedJobID) =>
                     (S submitted, newID submitted)).
    assert (H1 : forall c id,
               submit (c, id)
               = ((c + 1)%nat, if (1 =? 0)%nat then id
                               else newID (c + 1 - 1)%nat)).
    { intros c0 id0. unfold submit. cbn [Nat.eqb]. f_equal; [lia|].
      f_equal. lia. }
    pose proof (iter_submissions newID submit 1 H1 (Z.to_nat n)) as H2.
    pose proof (iter_submissions newID _ _ (fun c id => H2 c id)
                                 (Z.to_nat N)) as H3.
    assert (H3' : forall c id,
               (fun st : nat * string =>
                  Nat.iter (Z.to_nat N) (Nat.iter (Z.to_nat n) submit) st)
                 (c, id)
               = ((c + Z.to_nat N * (Z.to_nat n * 1))%nat,
                  if (Z.to_nat N * (Z.to_nat n * 1) =? 0)%nat then id
                  else newID (c + Z.to_nat N * (Z.to_nat n * 1) - 1)%nat))
      by (intros; apply H3).
    pose proof (iter_submissions newID _ _ H3' (Z.to_nat n)) as H4.
    pose proof (iter_submissions newID _ _ (fun c id => H4 c id)
                                 (Z.to_nat N) c id) as H5.
    etransitivity; [exact H5|].
    replace (Z.to_nat N * (Z.to_nat n * (Z.to_nat N * (Z.to_nat n * 1))))%nat
      with (Z.to_nat N * Z.to_nat n * (Z.to_nat N * Z.to_nat n))%nat by lia.
    reflexivity. }
  cbv zeta. split; [apply H|]. split; rewrite H; reflexivity.
Qed.

(** ** A stop does not end the pass *)

Lemma outboxGrows_refl w : outboxGrows w w.
Proof. exists []. rewrite app_nil_r. reflexivity. Qed.

Lemma outboxGrows_trans w1 w2 w3 :
  outboxGrows w1 w2 -> outboxGrows w2 w3 -> outboxGrows w1 w3.
Proof.
  intros [l1 H1] [l2 H2]. exists (l1 ++ l2). rewrite H2, H1, app_assoc.
  reflexivity.
Qed.

Lemma outboxGrows_eq w w' : outbox w' = outbox w -> outboxGrows w w'.
Proof. intros H. exists []. rewrite H, app_nil_r. reflexivity. Qed.

Lemma outboxGrows_fold {A} (f : World -> A -> World) (l : list A) :
  (forall w a, outboxGrows w (f w a)) ->
  forall w, outboxGrows w (fold_left f l w).
Proof.
  intros Hf. induction l as [|a l IH]; intros w; cbn [fold_left].
  - apply outboxGrows_refl.
  - eapply outboxGrows_trans; [apply Hf | apply IH].
Qed.

Lemma stopJob_outboxGrows jobID reason permanent w :
  outboxGrows w (stopJob jobID reason permanent w).
Proof.
  unfold stopJob. destruct (states w !! jobID) as [js|];
    [|apply outboxGrows_eq; reflexivity].
  destruct (IsTerminal (JS_State js)); [apply outboxGrows_eq; reflexivity|].
  eexists. reflexivity.
Qed.

Lemma updateAndNotify_outboxGrows st name (r : ExecutionState) w :
  outboxGrows w
    (publish (bidEvent name r)
       (UpdateExecution (E_JobID r) (E_NodeID r) st "" w)).
Proof.
  destruct (updateAndNotify_frame st name r w) as (_ & H & _).
  eexists. exact H.
Qed.

Lemma verifyResult_outboxGrows s job executions w :
  outboxGrows w (snd (verifyResult s job executions w)).
Proof.
  unfold verifyResult.
  destruct (Verify (verifier s) job executions) as [[succeeded failed] [e|]];
    cbn [snd]; [apply outboxGrows_refl|].
  apply outboxGrows_trans
    with (fold_left (fun w r => updateAndNotifyResultAccepted r w) succeeded w);
    apply outboxGrows_fold; intros; apply updateAndNotify_outboxGrows.
Qed.

Lemma checkForFailedExecutions_outboxGrows s job jobState w :
  outboxGrows w (checkForFailedExecutions s job jobState w).
Proof.
  unfold checkForFailedExecutions.
  destruct (SelectNodesForRetry (nodeSelector s) job jobState) as [nodes err].
  destruct (notNil err || _); [apply stopJob_outboxGrows|].
  destruct (0 <? _); [|apply outboxGrows_refl].
  eexists. apply notifyAskForBid_outbox.
Qed.

Lemma checkForPendingBids_outboxGrows s job jobState w :
  outboxGrows w (checkForPendingBids s job jobState w).
Proof.
  destruct (SelectBids (nodeSelector s) job jobState) as [acc rej] eqn:E.
  destruct (checkForPendingBids_frame s job jobState w acc rej E) as (H & _).
  eexists. exact H.
Qed.

Lemma checkForCompletedExecutions_outboxGrows s job jobState w :
  outboxGrows w (checkForCompletedExecutions s job jobState w).
Proof.
  unfold checkForCompletedExecutions.
  destruct (CanCompleteJob (nodeSelector s) job jobState) as [[|] newState];
    [|apply outboxGrows_refl].
  apply outboxGrows_eq. unfold UpdateJobState.
  destruct (states w !! _) as [js|]; [|reflexivity].
  destruct (IsTerminal (JS_State js)); reflexivity.
Qed.

Lemma transitionJobStateLockFree_outboxGrows fuel s :
  forall jobID w w',
    transitionJobStateLockFree fuel s jobID w = Some w' -> outboxGrows w w'.
Proof.
  induction fuel as [|fuel IH]; intros jobID w w'; cbn [transitionJobStateLockFree];
    [discriminate|].
  destruct (GetJobState w jobID) as [e|jobState];
    [intros [= <-]; apply outboxGrows_refl|].
  destruct (IsTerminal (JS_State jobState));
    [intros [= <-]; apply outboxGrows_refl|].
  destruct (GetJob w jobID) as [e|job];
    [intros [= <-]; apply outboxGrows_refl|].
  set (w2 := checkForPendingBids s job jobState
               (checkForFailedExecutions s job jobState w)).
  assert (H2 : outboxGrows w w2).
  { eapply outboxGrows_trans;
      [apply checkForFailedExecutions_outboxGrows
      | apply checkForPendingBids_outboxGrows]. }
  destruct (checkForPendingResults _ _ _ _ w2) as [w3|] eqn:E3; [|discriminate].
  intros [= <-].
  eapply outboxGrows_trans; [exact H2|].
  eapply outboxGrows_trans; [|apply checkForCompletedExecutions_outboxGrows].
  revert E3. unfold checkForPendingResults.
  destruct (1 <=? _); [|intros [= <-]; apply outboxGrows_refl].
  pose proof (verifyResult_outboxGrows s job
    (GroupExecutionsByState jobState ExecutionStateResultProposed) w2) as Hv.
  destruct (verifyResult _ _ _ _) as [[[succeeded failed] err] wv].
  cbn [snd] in Hv. destruct err as [e|].
  - destruct (IsErrInsufficientExecutions e); intros [= <-]; [exact Hv|].
    eapply outboxGrows_trans; [exact Hv | apply stopJob_outboxGrows].
  - destruct (0 <? _); [|intros [= <-]; exact Hv].
    intros H. eapply outboxGrows_trans; [exact Hv | eapply IH, H].
Qed.



(** ** The listing the get test expects *)

Lemma commaFree_app a b :
  commaFree (a +:+ b) = commaFree a && commaFree b.
Proof.
  unfold commaFree. induction a as [|c a IH]; [reflexivity|].
  change (String c a +:+ b)%string with (String c (a +:+ b)).
  cbn [list_ascii_of_string forallb]. rewrite IH.
  rewrite andb_assoc. reflexivity.
Qed.

Lemma app_comma_inj x : forall y r r',
  commaFree x = true -> commaFree y = true ->
  (r = ""%string \/ exists t, r = String "," t) ->
  (r' = ""%string \/ exists t, r' = String "," t) ->
  (x +:+ r = y +:+ r')%string -> x = y /\ r = r'.
Proof.
  assert (Hhead : forall c z r r0,
             commaFree (String c z) = true ->
             (r = ""%string \/ exists t, r = String "," t) ->
             r = String c (z +:+ r0)%string -> False).
  { intros c z r r0 Hc Hr H. unfold commaFree in Hc.
    cbn [list_ascii_of_string forallb] in Hc.
    apply andb_true_iff in Hc as [Hc _]. apply negb_true_iff in Hc.
    apply Ascii.eqb_neq in Hc.
    destruct Hr as [->|[t ->]]; congruence. }
  induction x as [|c x IH]; intros [|d y] r r' Hx Hy Hr Hr' Heq.
  - split; [reflexivity | exact Heq].
  - exfalso. exact (Hhead d y r r' Hy Hr Heq).
  - exfalso. symmetry in Heq. exact (Hhead c x r' r Hx Hr' Heq).
  - change (String c (x +:+ r) = String d (y +:+ r'))%string in Heq.
    injection Heq as -> Heq.
    unfold commaFree in Hx, Hy. cbn [list_ascii_of_string forallb] in Hx, Hy.
    apply andb_true_iff in Hx as [_ Hx]. apply andb_true_iff in Hy as [_ Hy].
    destruct (IH y r r' Hx Hy Hr Hr' Heq) as [-> ->]. split; reflexivity.
Qed.

Lemma concat_comma_cons x l :
  String.concat "," (x :: l)
  = (x +:+ match l with
           | [] => ""
           | _ :: _ => String "," (String.concat "," l)
           end)%string.
Proof.
  destruct l as [|y l]; cbn [String.concat].
  - induction x as [|c x IH]; [reflexivity|].
    change (String c x = String c (x +:+ ""))%string. f_equal. exact IH.
  - reflexivity.
Qed.

(** [strings.Join] with a comma is one-to-one on listings of non-empty
    strings without commas. *)
Lemma join_comma_inj l1 : forall l2,
  (forall x, In x l1 -> commaFree x = true /\ x <> ""%string) ->
  (forall x, In x l2 -> commaFree x = true /\ x <> ""%string) ->
  String.concat "," l1 = String.concat "," l2 -> l1 = l2.
Proof.
  assert (Hne : forall x l,
             x <> ""%string -> String.concat "," (x :: l) <> ""%string).
  { intros x l Hx H. rewrite concat_comma_cons in H.
    destruct x; [congruence | discriminate H]. }
  induction l1 as [|x l1 IH]; intros [|y l2] H1 H2 Heq.
  - reflexivity.
  - exfalso. apply (Hne y l2); [apply H2; left; reflexivity|].
    symmetry. exact Heq.
  - exfalso. apply (Hne x l1); [apply H1; left; reflexivity|]. exact Heq.
  - rewrite !concat_comma_cons in Heq.
    apply app_comma_inj in Heq as [-> Hrest].
    + f_equal. apply IH.
      * intros z Hz. apply H1. right. exact Hz.
      * intros z Hz. apply H2. right. exact Hz.
      * destruct l1 as [|a l1], l2 as [|b l2]; try discriminate Hrest;
          [reflexivity|]. injection Hrest as Hrest. exact Hrest.
    + apply H1. left. reflexivity.
    + apply H2. left. reflexivity.
    + destruct l1; [left; reflexivity | right; eexists; reflexivity].
    + destruct l2; [left; reflexivity | right; eexists; reflexivity].
Qed.

(** The listing [testResultsFolderStructure] expects names the volumes
    folder twice.  A walk hands each path to the callback once: when
    the paths it keeps are all different and have no comma, and the
    folder name and the short host identifier have none, the assertion
    of the test fails. *)
Theorem testResultsFolderStructure_never_holds
    DownloadVolumesFolderName shortHostID baseFolder walked :
  NoDup (walkedFiles baseFolder walked) ->
  (forall f, In f (walkedFiles baseFolder walked) -> commaFree f = true) ->
  commaFree DownloadVolumesFolderName = true ->
  commaFree shortHostID = true ->
  testResultsFolderStructure_asserts DownloadVolumesFolderName shortHostID
    baseFolder walked = false.
Proof.
  intros Hnd Hcf HV HS.
  destruct (testResultsFolderStructure_asserts _ _ _ _) eqn:E;
    [|reflexivity].
  exfalso. unfold testResultsFolderStructure_asserts in E.
  apply String.eqb_eq in E. apply join_comma_inj in E.
  - rewrite <- E in Hnd. unfold expectedResultsListing in Hnd.
    rewrite !NoDup_cons in Hnd. destruct Hnd as [Hnotin _].
    apply Hnotin. rewrite !elem_of_cons. do 6 right. left. reflexivity.
  - intros x Hx. unfold expectedResultsListing in Hx.
    cbn [In] in Hx.
    repeat (destruct Hx as [<-|Hx];
            [split; [rewrite ?commaFree_app, ?HV, ?HS; reflexivity
                    | discriminate]|]).
    destruct Hx.
  - intros x Hx. split; [apply Hcf, Hx|].
    unfold walkedFiles in Hx. apply filter_In in Hx as [_ Hx].
    apply negb_true_iff, String.eqb_neq in Hx. exact Hx.
Qed.

Lemma testResultsFolderStructure_never_holds_witness :
  testResultsFolderStructure_asserts "volumes" "QmHost12" "/tmp/job"
    ["/tmp/job"; "/tmp/job/stderr"; "/tmp/job/stdout"; "/tmp/job/volumes";
     "/tmp/job/volumes/0"; "/tmp/job/volumes/0/node_QmHost12_exitCode";
     "/tmp/job/volumes/0/node_QmHost12_stderr";
     "/tmp/job/volumes/0/node_QmHost12_stdout";
     "/tmp/job/volumes/outputs"]%string
  = false.
Proof.
  apply testResultsFolderStructure_never_holds.
  - vm_compute. repeat constructor; rewrite ?elem_of_cons, ?elem_of_nil;
      intuition discriminate.
  - intros f Hf. vm_compute in Hf.
    repeat (destruct Hf as [<-|Hf]; [reflexivity|]). destruct Hf.
  - reflexivity.
  - reflexivity.
Defined.
